(** * motorcycle-cv: a shallow embedding of the gateway's core

    The development follows the Go packages of the repository:
    [middleware] (token-bucket rate limiter), [cache] (in-memory caches),
    [ml] (inference client), [processor] (work queue and frame processor)
    and [handlers] (data URL decoding).

    Conventions.
    - [time.Time] and [time.Duration] are integers counting nanoseconds.
      An operation that reads the clock several times is given one reading
      [now]; Go's monotonic clock makes successive readings non-decreasing.
    - Go's [int] and [int64] are 64-bit: additions are written with their
      wrap-around ([wrap_int]).
    - A mutex-protected method is one atomic transition of the state it
      guards. *)

From Stdlib Require Import ZArith QArith List String Ascii Lia Bool.
From Stdlib Require Import Strings.Byte.
From stdpp Require Import gmap strings list fin_maps.

Local Open Scope Z_scope.

(** ** Machine integers *)

Definition min_int : Z := - 2 ^ 63.
Definition max_int : Z := 2 ^ 63 - 1.

(** Two's-complement wrap-around of a 64-bit signed integer. *)
Definition wrap_int (z : Z) : Z := (z + 2 ^ 63) mod 2 ^ 64 - 2 ^ 63.

Definition is_int (z : Z) : Prop := min_int <= z <= max_int.

(** ** Durations *)

Definition Nanosecond : Z := 1.
Definition Second : Z := 1000000000.
Definition Minute : Z := 60 * Second.

(** * Package middleware: the rate limiter *)

Module RateLimit.

Record ClientBucket := mkBucket { tokens : Z; lastUpdate : Z }.

(** [int(elapsed.Seconds() * float64(rps))]: the conversion truncates
    toward zero.  The product is taken exactly, the float64 rounding of the
    source is not modelled. *)
Definition tokensToAdd (elapsed rps : Z) : Z := Z.quot (elapsed * rps) Second.

(** [ClientBucket.allowRequest], under the bucket's mutex. *)
Definition allowRequest (cb : ClientBucket) (now rps burst : Z)
  : bool * ClientBucket :=
  let elapsed := now - lastUpdate cb in
  let t1 := wrap_int (tokens cb + tokensToAdd elapsed rps) in
  let t2 := if burst <? t1 then burst else t1 in
  if 0 <? t2
  then (true, mkBucket (t2 - 1) now)
  else (false, mkBucket t2 now).

(** The limiter's [clients] map; buckets are shared by pointer, so an
    updated bucket is written back under its key. *)
Record RateLimiter := mkLimiter {
  clients : gmap string ClientBucket;
  defaultRPS : Z;
  burst : Z
}.

Definition with_clients (rl : RateLimiter) (m : gmap string ClientBucket) :=
  mkLimiter m (defaultRPS rl) (burst rl).

(** [RateLimiter.allowRequestWithConfig]. *)
Definition allowRequestWithConfig (rl : RateLimiter) (clientIP : string)
    (now rps burst : Z) : bool * RateLimiter :=
  let bucket :=
    match clients rl !! clientIP with
    | Some b => b
    | None => mkBucket burst now
    end in
  let '(ok, bucket') := allowRequest bucket now rps burst in
  (ok, with_clients rl (<[clientIP := bucket']> (clients rl))).

(** [RateLimiter.allowRequest]: the limiter's own configuration. *)
Definition allowRequestDefault (rl : RateLimiter) (clientIP : string) (now : Z) :=
  allowRequestWithConfig rl clientIP now (defaultRPS rl) (burst rl).

(** One tick of [cleanupExpiredClients]. *)
Definition cleanupExpiredClients (rl : RateLimiter) (now : Z) : RateLimiter :=
  with_clients rl
    (filter (fun kv => negb (10 * Minute <? now - lastUpdate (snd kv)) = true)
            (clients rl)).

(** A run of [allow] calls of one client at the instants [ts]; each entry of
    the log holds the answer and the tokens left in the bucket afterwards. *)
Fixpoint serve (rl : RateLimiter) (ip : string) (rps burst : Z) (ts : list Z)
  : list (bool * Z) * RateLimiter :=
  match ts with
  | [] => ([], rl)
  | t :: rest =>
      let '(ok, rl1) := allowRequestWithConfig rl ip t rps burst in
      let left := match clients rl1 !! ip with Some b => tokens b | None => 0 end in
      let '(log, rl2) := serve rl1 ip rps burst rest in
      ((ok, left) :: log, rl2)
  end.


(** Calls that each come less than [1/rps] seconds after the one before. *)
Fixpoint short_gaps (rps t : Z) (ts : list Z) : Prop :=
  match ts with
  | [] => True
  | u :: rest => 0 <= u - t /\ (u - t) * rps < Second /\ short_gaps rps u rest
  end.

(** What happens to the limiter over time, seen from one client: its own
    calls, and the ticks of the background sweeper. *)
Inductive event := Allow (t : Z) | Sweep (t : Z).

Definition at_time (e : event) : Z :=
  match e with Allow t => t | Sweep t => t end.

Fixpoint run (rl : RateLimiter) (ip : string) (rps burst : Z) (evs : list event)
  : list (bool * Z) * RateLimiter :=
  match evs with
  | [] => ([], rl)
  | Allow t :: rest =>
      let '(ok, rl1) := allowRequestWithConfig rl ip t rps burst in
      let left := match clients rl1 !! ip with Some b => tokens b | None => 0 end in
      let '(log, rl2) := run rl1 ip rps burst rest in
      ((ok, left) :: log, rl2)
  | Sweep t :: rest => run (cleanupExpiredClients rl t) ip rps burst rest
  end.




(** Readings of a monotonic clock between [lo] and [hi]. *)
Fixpoint clock (lo hi : Z) (evs : list event) : Prop :=
  match evs with
  | [] => True
  | e :: rest => lo <= at_time e < hi /\ clock (at_time e) hi rest
  end.


End RateLimit.

(** * crypto/md5 and the hexadecimal verb of fmt

    The digest of the Go standard library, after RFC 1321, on 32-bit words
    held in [Z]. *)

Module MD5.

Definition mask32 : Z := 2 ^ 32 - 1.
Definition add32 (a b : Z) : Z := (a + b) mod 2 ^ 32.
Definition not32 (a : Z) : Z := Z.lxor a mask32.
Definition rotl32 (x c : Z) : Z :=
  Z.land (Z.lor (Z.shiftl x c) (Z.shiftr x (32 - c))) mask32.

Definition shifts : list Z :=
  [ 7; 12; 17; 22; 7; 12; 17; 22; 7; 12; 17; 22; 7; 12; 17; 22;
    5; 9; 14; 20; 5; 9; 14; 20; 5; 9; 14; 20; 5; 9; 14; 20;
    4; 11; 16; 23; 4; 11; 16; 23; 4; 11; 16; 23; 4; 11; 16; 23;
    6; 10; 15; 21; 6; 10; 15; 21; 6; 10; 15; 21; 6; 10; 15; 21 ].

Definition sines : list Z :=
  [ 3614090360; 3905402710; 606105819; 3250441966;
    4118548399; 1200080426; 2821735955; 4249261313;
    1770035416; 2336552879; 4294925233; 2304563134;
    1804603682; 4254626195; 2792965006; 1236535329;
    4129170786; 3225465664; 643717713; 3921069994;
    3593408605; 38016083; 3634488961; 3889429448;
    568446438; 3275163606; 4107603335; 1163531501;
    2850285829; 4243563512; 1735328473; 2368359562;
    4294588738; 2272392833; 1839030562; 4259657740;
    2763975236; 1272893353; 4139469664; 3200236656;
    681279174; 3936430074; 3572445317; 76029189;
    3654602809; 3873151461; 530742520; 3299628645;
    4096336452; 1126891415; 2878612391; 4237533241;
    1700485571; 2399980690; 4293915773; 2240044497;
    1873313359; 4264355552; 2734768916; 1309151649;
    4149444226; 3174756917; 718787259; 3951481745 ].

Definition byte_val (b : byte) : Z := Z.of_N (Byte.to_N b).

Definition byte_of (z : Z) : byte :=
  match Byte.of_N (Z.to_N (z mod 256)) with
  | Some b => b
  | None => Byte.x00
  end.

(** Little-endian bytes of a number. *)
Fixpoint le_bytes (n : nat) (z : Z) : list Z :=
  match n with
  | O => []
  | S n' => z mod 256 :: le_bytes n' (z / 256)
  end.

Fixpoint le_word (bs : list Z) : Z :=
  match bs with
  | [] => 0
  | b :: rest => b + 256 * le_word rest
  end.

Definition pad (msg : list Z) : list Z :=
  let len := Z.of_nat (length msg) in
  msg ++ [128] ++ repeat 0 (Z.to_nat ((55 - len) mod 64))
      ++ le_bytes 8 ((8 * len) mod 2 ^ 64).

Fixpoint words (n : nat) (block : list Z) : list Z :=
  match n with
  | O => []
  | S n' => le_word (firstn 4 block) :: words n' (skipn 4 block)
  end.

Definition state : Type := Z * Z * Z * Z.

Definition step (M : list Z) (st : state) (i : Z) : state :=
  let '(a, b, c, d) := st in
  let '(f, g) :=
    if i <? 16 then (Z.lor (Z.land b c) (Z.land (not32 b) d), i)
    else if i <? 32 then (Z.lor (Z.land d b) (Z.land (not32 d) c), (5 * i + 1) mod 16)
    else if i <? 48 then (Z.lxor (Z.lxor b c) d, (3 * i + 5) mod 16)
    else (Z.lxor c (Z.lor b (not32 d)), (7 * i) mod 16) in
  let f' := add32 (add32 (add32 f a) (nth (Z.to_nat i) sines 0))
                  (nth (Z.to_nat g) M 0) in
  (d, add32 b (rotl32 f' (nth (Z.to_nat i) shifts 0)), b, c).

Definition block (st : state) (bs : list Z) : state :=
  let M := words 16 bs in
  let '(a0, b0, c0, d0) := st in
  let '(a, b, c, d) := fold_left (step M) (List.map Z.of_nat (seq 0 64)) st in
  (add32 a0 a, add32 b0 b, add32 c0 c, add32 d0 d).

Fixpoint blocks (n : nat) (st : state) (bs : list Z) : state :=
  match n with
  | O => st
  | S n' => blocks n' (block st (firstn 64 bs)) (skipn 64 bs)
  end.

Definition init : state := (1732584193, 4023233417, 2562383102, 271733878).

(** [md5.Sum]. *)
Definition Sum (data : list byte) : list byte :=
  let padded := pad (List.map byte_val data) in
  let '(a, b, c, d) := blocks (length padded / 64) init padded in
  List.map byte_of (le_bytes 4 a ++ le_bytes 4 b ++ le_bytes 4 c ++ le_bytes 4 d).

Definition hex_digit (n : Z) : ascii :=
  nth (Z.to_nat n) (list_ascii_of_string "0123456789abcdef") "0"%char.

(** [fmt.Sprintf("%x", digest)]. *)
Fixpoint hex (bs : list byte) : string :=
  match bs with
  | [] => EmptyString
  | b :: rest =>
      String (hex_digit (byte_val b / 16))
             (String (hex_digit (byte_val b mod 16)) (hex rest))
  end.

End MD5.

(** * Package models *)

Module Models.

(** [float64] values are only carried and compared with constants; they are
    rationals here. *)
Definition float64 := Q.

(** The values of a [map[string]any] that the gateway builds or forwards. *)
Inductive scalar :=
| SString (s : string)
| SInt (n : Z)
| SFloat (x : float64).

Record FrameRequest := mkFrameRequest {
  ImageData : list byte;
  Timestamp : Z;
  ClientID : string;
  Metadata : list (string * scalar)
}.

Record Point := mkPoint { pt_X : float64; pt_Y : float64 }.

Record Annotation := mkAnnotation {
  an_Type : string;
  an_X : float64;
  an_Y : float64;
  an_Width : float64;
  an_Height : float64;
  an_Points : list Point;
  an_Label : string;
  an_Confidence : float64;
  an_Color : string
}.

Record Feedback := mkFeedback {
  fb_Type : string;
  fb_Message : string;
  fb_Score : Z;
  fb_Category : string;
  fb_Priority : Z
}.

Record AnalysisResult := mkAnalysisResult {
  OverallScore : Z;
  PostureScore : Z;
  LaneScore : Z;
  SpeedScore : Z;
  Annotations : list Annotation;
  ar_Feedback : list Feedback;
  ar_Metadata : list (string * scalar);
  ProcessingTime : float64;
  ModelVersion : string;
  ar_Timestamp : Z
}.

(** The zero value of the struct, what [var r models.AnalysisResult]
    declares. *)
Definition zero_AnalysisResult : AnalysisResult :=
  mkAnalysisResult 0 0 0 0 [] [] [] 0%Q "" 0.

Definition with_Feedback (a : AnalysisResult) (fb : list Feedback) : AnalysisResult :=
  mkAnalysisResult (OverallScore a) (PostureScore a) (LaneScore a) (SpeedScore a)
    (Annotations a) fb (ar_Metadata a) (ProcessingTime a) (ModelVersion a)
    (ar_Timestamp a).

End Models.

(** * Outcomes of calls that may panic *)

Inductive outcome (A : Type) : Type :=
| Returns (a : A)
| Panics (reason : string).
Arguments Returns {A} a.
Arguments Panics {A} reason.

(** * Package cache *)

Module Cache.
Import Models.

(** The dynamic values ([interface{}]) that are stored in a cache: the frame
    processor stores analysis results and [true], the counters are
    [int64]. *)
Inductive any :=
| ANil
| ABool (b : bool)
| AInt64 (n : Z)
| AString (s : string)
| AResult (r : AnalysisResult).

(** [ErrCacheMiss] is the only error value of the package. *)
Inductive error := ErrCacheMiss.

(** The [dest] argument of [Get]: an [interface{}] that holds a pointer.  A
    constructor stands for the dynamic type of the pointer and carries what
    the pointer points to. *)
Inductive dest :=
| DestNil
| DestAny (cell : any)
| DestAnyNil
| DestResult (cell : AnalysisResult)
| DestInt64 (cell : Z)
| DestBool (cell : bool)
| DestString (cell : string).

Record CacheItem := mkItem {
  Value : any;
  ExpiresAt : Z;
  LastUsed : Z;
  AccessCount : Z
}.

(** What a [Get] that found a live item does with [dest]: when the type
    assertion of [dest] to "pointer to [interface{}]" succeeds, the value is
    stored through the pointer; otherwise nothing is stored. *)
Definition store_through (d : dest) (v : any) : outcome dest :=
  match d with
  | DestAny _ => Returns (DestAny v)
  | DestAnyNil => Panics "invalid memory address or nil pointer dereference"
  | _ => Returns d
  end.

(** [count, ok := item.Value.(int64)] followed by the two branches of the
    counters. *)
Definition bump (v : any) : Z :=
  match v with
  | AInt64 count => wrap_int (count + 1)
  | _ => 1
  end.

(** The interface [Cache].  [GetStats] only formats counters for display
    and is left out. *)
Class CacheOps (C : Type) := {
  Set_ : C -> string -> any -> Z -> option error * C;
  Get : C -> string -> dest -> Z -> outcome (option error * dest * C);
  Delete : C -> string -> option error * C;
  Exists : C -> string -> Z -> bool * option error;
  SetWithTTL : C -> string -> any -> Z -> Z -> option error * C;
  GetTTL : C -> string -> Z -> Z * option error;
  Increment : C -> string -> Z -> Z * option error * C;
  IncrementWithTTL : C -> string -> Z -> Z -> Z * option error * C;
  Close : C -> outcome (option error * C)
}.

(** ** MemoryCache *)

Module MemoryCache.

Record t := mk {
  items : gmap string CacheItem;
  maxSize : Z;
  ttl : Z;
  ticking : bool;      (* the [cleanup] ticker has not been stopped *)
  stopClosed : bool    (* [stopCh] has been closed *)
}.

Definition with_items (c : t) (m : gmap string CacheItem) : t :=
  mk m (maxSize c) (ttl c) (ticking c) (stopClosed c).

Definition NewMemoryCache (maxSize ttl : Z) : t := mk ∅ maxSize ttl true false.

(** [evictLRU]: one pass over the map keeps the key of the oldest
    [LastUsed] seen so far; the empty string means "none yet".  Go visits a
    map in no fixed order, the pass here is in the order of
    [map_to_list]. *)
Definition evictLRU (m : gmap string CacheItem) : gmap string CacheItem :=
  let pick (acc : string * Z) (kv : string * CacheItem) :=
    if (String.eqb (fst acc) "" || (LastUsed (snd kv) <? snd acc))%bool
    then (fst kv, LastUsed (snd kv))
    else acc in
  let oldest := fold_left pick (map_to_list m) (""%string, 0) in
  if String.eqb (fst oldest) "" then m else delete (fst oldest) m.

Definition make_room (c : t) : gmap string CacheItem :=
  if maxSize c <=? Z.of_nat (size (items c)) then evictLRU (items c) else items c.

Definition Set_ (c : t) (key : string) (value : any) (now : Z) : option error * t :=
  (None, with_items c (<[key := mkItem value (now + ttl c) now 1]> (make_room c))).

Definition SetWithTTL (c : t) (key : string) (value : any) (ttl' now : Z)
  : option error * t :=
  (None, with_items c (<[key := mkItem value (now + ttl') now 1]> (make_room c))).

Definition Get (c : t) (key : string) (d : dest) (now : Z)
  : outcome (option error * dest * t) :=
  match items c !! key with
  | None => Returns (Some ErrCacheMiss, d, c)
  | Some item =>
      if ExpiresAt item <? now
      then Returns (Some ErrCacheMiss, d, with_items c (delete key (items c)))
      else
        let item' := mkItem (Value item) (ExpiresAt item) now
                            (wrap_int (AccessCount item + 1)) in
        let c' := with_items c (<[key := item']> (items c)) in
        match store_through d (Value item) with
        | Returns d' => Returns (None, d', c')
        | Panics r => Panics r
        end
  end.

Definition Delete (c : t) (key : string) : option error * t :=
  (None, with_items c (delete key (items c))).

Definition Exists (c : t) (key : string) (now : Z) : bool * option error :=
  match items c !! key with
  | None => (false, None)
  | Some item => if ExpiresAt item <? now then (false, None) else (true, None)
  end.

Definition GetTTL (c : t) (key : string) (now : Z) : Z * option error :=
  match items c !! key with
  | None => (0, Some ErrCacheMiss)
  | Some item =>
      if ExpiresAt item <? now then (0, Some ErrCacheMiss)
      else (ExpiresAt item - now, None)
  end.

Definition Increment (c : t) (key : string) (now : Z) : Z * option error * t :=
  match items c !! key with
  | None =>
      (1, None, with_items c (<[key := mkItem (AInt64 1) (now + ttl c) now 1]> (items c)))
  | Some item =>
      if ExpiresAt item <? now
      then (1, None,
            with_items c (<[key := mkItem (AInt64 1) (now + ttl c) now 1]> (items c)))
      else
        let n := bump (Value item) in
        (n, None,
         with_items c
           (<[key := mkItem (AInt64 n) (ExpiresAt item) now
                            (wrap_int (AccessCount item + 1))]> (items c)))
  end.

Definition IncrementWithTTL (c : t) (key : string) (ttl' now : Z)
  : Z * option error * t :=
  match items c !! key with
  | None =>
      (1, None, with_items c (<[key := mkItem (AInt64 1) (now + ttl') now 1]> (items c)))
  | Some item =>
      let n := bump (Value item) in
      (n, None,
       with_items c
         (<[key := mkItem (AInt64 n) (now + ttl') now
                          (wrap_int (AccessCount item + 1))]> (items c)))
  end.

(** [Close]: stops the ticker, then [close(c.stopCh)]; closing a closed
    channel panics. *)
Definition Close (c : t) : outcome (option error * t) :=
  if stopClosed c
  then Panics "close of closed channel"
  else Returns (None, mk (items c) (maxSize c) (ttl c) false true).

(** One tick of [cleanupExpired]; the goroutine has returned once [stopCh]
    is closed. *)
Definition cleanupExpired (c : t) (now : Z) : t :=
  if stopClosed c then c
  else with_items c
         (filter (fun kv => negb (ExpiresAt (snd kv) <? now) = true) (items c)).

End MemoryCache.

#[export] Instance MemoryCache_ops : CacheOps MemoryCache.t := {
  Set_ := MemoryCache.Set_;
  Get := MemoryCache.Get;
  Delete := MemoryCache.Delete;
  Exists := MemoryCache.Exists;
  SetWithTTL := MemoryCache.SetWithTTL;
  GetTTL := MemoryCache.GetTTL;
  Increment := MemoryCache.Increment;
  IncrementWithTTL := MemoryCache.IncrementWithTTL;
  Close := MemoryCache.Close
}.

(** ** RedisCache

    The type of that name is a second in-memory map, without a size bound;
    its items leave [LastUsed] and [AccessCount] at zero. *)

Module RedisCache.

Record t := mk {
  items : gmap string CacheItem;
  ttl : Z;
  ticking : bool;
  stopClosed : bool
}.

Definition with_items (c : t) (m : gmap string CacheItem) : t :=
  mk m (ttl c) (ticking c) (stopClosed c).

Definition NewRedisCache (ttl : Z) : t := mk ∅ ttl true false.

Definition Set_ (c : t) (key : string) (value : any) (now : Z) : option error * t :=
  (None, with_items c (<[key := mkItem value (now + ttl c) 0 0]> (items c))).

Definition SetWithTTL (c : t) (key : string) (value : any) (ttl' now : Z)
  : option error * t :=
  (None, with_items c (<[key := mkItem value (now + ttl') 0 0]> (items c))).

Definition Get (c : t) (key : string) (d : dest) (now : Z)
  : outcome (option error * dest * t) :=
  match items c !! key with
  | None => Returns (Some ErrCacheMiss, d, c)
  | Some item =>
      if ExpiresAt item <? now
      then Returns (Some ErrCacheMiss, d, with_items c (delete key (items c)))
      else
        match store_through d (Value item) with
        | Returns d' => Returns (None, d', c)
        | Panics r => Panics r
        end
  end.

Definition Delete (c : t) (key : string) : option error * t :=
  (None, with_items c (delete key (items c))).

Definition Exists (c : t) (key : string) (now : Z) : bool * option error :=
  match items c !! key with
  | None => (false, None)
  | Some item => if ExpiresAt item <? now then (false, None) else (true, None)
  end.

Definition GetTTL (c : t) (key : string) (now : Z) : Z * option error :=
  match items c !! key with
  | None => (0, Some ErrCacheMiss)
  | Some item =>
      if ExpiresAt item <? now then (0, Some ErrCacheMiss)
      else (ExpiresAt item - now, None)
  end.

Definition Increment (c : t) (key : string) (now : Z) : Z * option error * t :=
  match items c !! key with
  | None =>
      (1, None, with_items c (<[key := mkItem (AInt64 1) (now + ttl c) 0 0]> (items c)))
  | Some item =>
      if ExpiresAt item <? now
      then (1, None,
            with_items c
              (<[key := mkItem (AInt64 1) (now + ttl c) (LastUsed item)
                               (AccessCount item)]> (items c)))
      else
        let n := bump (Value item) in
        (n, None,
         with_items c
           (<[key := mkItem (AInt64 n) (ExpiresAt item) (LastUsed item)
                            (AccessCount item)]> (items c)))
  end.

Definition IncrementWithTTL (c : t) (key : string) (ttl' now : Z)
  : Z * option error * t :=
  match items c !! key with
  | None =>
      (1, None, with_items c (<[key := mkItem (AInt64 1) (now + ttl') 0 0]> (items c)))
  | Some item =>
      let n := bump (Value item) in
      (n, None,
       with_items c
         (<[key := mkItem (AInt64 n) (now + ttl') (LastUsed item)
                          (AccessCount item)]> (items c)))
  end.

Definition Close (c : t) : outcome (option error * t) :=
  if stopClosed c
  then Panics "close of closed channel"
  else Returns (None, mk (items c) (ttl c) false true).

Definition cleanupExpired (c : t) (now : Z) : t :=
  if stopClosed c then c
  else with_items c
         (filter (fun kv => negb (ExpiresAt (snd kv) <? now) = true) (items c)).

End RedisCache.

#[export] Instance RedisCache_ops : CacheOps RedisCache.t := {
  Set_ := RedisCache.Set_;
  Get := RedisCache.Get;
  Delete := RedisCache.Delete;
  Exists := RedisCache.Exists;
  SetWithTTL := RedisCache.SetWithTTL;
  GetTTL := RedisCache.GetTTL;
  Increment := RedisCache.Increment;
  IncrementWithTTL := RedisCache.IncrementWithTTL;
  Close := RedisCache.Close
}.

(** [GenerateCacheKey]: the components are written to one MD5 hash one after
    the other, the digest is printed in hexadecimal. *)
Definition GenerateCacheKey (components : list string) : string :=
  MD5.hex (MD5.Sum (List.concat (List.map list_byte_of_string components))).

End Cache.

(** * Package ml: the inference client *)

Module ML.
Import Models.

Record ClientConfig := mkClientConfig {
  Timeout : Z;
  MaxRetries : Z;
  RetryDelay : Z;
  HealthCheckInterval : Z
}.

(** The configuration that [NewClient] builds. *)
Definition default_config : ClientConfig :=
  mkClientConfig (30 * Second) 3 (1 * Second) (30 * Second).

Record BBox := mkBBox {
  bb_X : float64; bb_Y : float64; bb_Width : float64; bb_Height : float64
}.

Record ObjectDetection := mkObjectDetection {
  od_Class : string;
  od_Confidence : float64;
  BoundingBox : BBox;
  TrackID : Z
}.

Record PoseKeypoint := mkPoseKeypoint {
  kp_Name : string;
  kp_X : float64;
  kp_Y : float64;
  kp_Confidence : float64;
  Visible : bool
}.

Record SceneAnalysisResult := mkSceneAnalysisResult {
  RoadType : string;
  LaneCount : Z;
  WeatherCondition : string;
  TimeOfDay : string;
  TrafficDensity : string;
  RoadCondition : string;
  SpeedLimit : Z;
  Visibility : float64
}.

Record AnalysisResponse := mkAnalysisResponse {
  rs_OverallScore : Z;
  rs_PostureScore : Z;
  rs_LaneScore : Z;
  rs_SpeedScore : Z;
  Detections : list ObjectDetection;
  PoseKeypoints : list PoseKeypoint;
  SceneAnalysis : SceneAnalysisResult;
  rs_ProcessingTime : float64;
  rs_ModelVersion : string
}.

(** What comes back for one POST to [/analyze]: no response at all (the
    transport failed), or a status code with a body; the body is given with
    what [json.Decode] makes of it. *)
Inductive payload :=
| Malformed
| Decoded (r : AnalysisResponse).

Inductive reply :=
| NoResponse (reason : string)
| Response (status : Z) (raw : string) (body : payload).

(** The errors of one attempt: "HTTP request failed", "ML service error
    (status ...)" and "failed to decode response". *)
Inductive attempt_error :=
| ErrTransport (reason : string)
| ErrStatus (status : Z) (raw : string)
| ErrDecode.

(** The error of [AnalyzeFrame]: "ML analysis failed after ... attempts",
    wrapping the error of the last attempt. *)
Inductive error :=
| ErrAttempts (maxRetries : Z) (last : option attempt_error).

Definition StatusOK : Z := 200.

Definition float_gt (x y : float64) : bool := negb (Qle_bool x y).

Definition box_annotation (d : ObjectDetection) : Annotation :=
  mkAnnotation "bounding_box"
    (bb_X (BoundingBox d)) (bb_Y (BoundingBox d))
    (bb_Width (BoundingBox d)) (bb_Height (BoundingBox d))
    [] (od_Class d) (od_Confidence d) "".

Definition keypoint_annotation (k : PoseKeypoint) : Annotation :=
  mkAnnotation "keypoint" (kp_X k) (kp_Y k) 5%Q 5%Q [] (kp_Name k)
    (kp_Confidence k) "".

(** [convertMLResponse]; [now] is the reading of the clock for the
    [Timestamp], in whole seconds. *)
Definition convertMLResponse (mlResp : AnalysisResponse) (now : Z) : AnalysisResult :=
  let annotations :=
    List.map box_annotation (Detections mlResp)
    ++ List.map keypoint_annotation
         (List.filter (fun k => Visible k && float_gt (kp_Confidence k) (1 # 2))
                      (PoseKeypoints mlResp)) in
  let scene := SceneAnalysis mlResp in
  mkAnalysisResult
    (rs_OverallScore mlResp) (rs_PostureScore mlResp)
    (rs_LaneScore mlResp) (rs_SpeedScore mlResp)
    annotations
    []
    [ ("road_type", SString (RoadType scene));
      ("lane_count", SInt (LaneCount scene));
      ("weather_condition", SString (WeatherCondition scene));
      ("time_of_day", SString (TimeOfDay scene));
      ("traffic_density", SString (TrafficDensity scene));
      ("road_condition", SString (RoadCondition scene));
      ("speed_limit", SInt (SpeedLimit scene));
      ("visibility", SFloat (Visibility scene)) ]%string
    (rs_ProcessingTime mlResp) (rs_ModelVersion mlResp)
    (now / Second).

(** [executeAnalysisRequest], from the reply of the service on.  Marshalling
    the request (bytes, an integer and a map with one string) cannot
    fail. *)
Definition executeAnalysisRequest (r : reply) (now : Z)
  : attempt_error + AnalysisResult :=
  match r with
  | NoResponse reason => inl (ErrTransport reason)
  | Response status raw body =>
      if negb (status =? StatusOK) then inl (ErrStatus status raw)
      else match body with
           | Malformed => inl ErrDecode
           | Decoded mlResponse => inr (convertMLResponse mlResponse now)
           end
  end.

(** What [AnalyzeFrame] does, in order. *)
Inductive event :=
| Sleep (d : Z)
| Post (attempt : Z).

(** The loop of [AnalyzeFrame]; [left] counts the iterations that remain.
    The service answers the request of attempt [k] with [service k]. *)
Fixpoint attempts (cfg : ClientConfig) (service : Z -> reply) (now : Z)
    (left : nat) (attempt : Z) (lastErr : option attempt_error)
  : (error + AnalysisResult) * list event :=
  match left with
  | O => (inl (ErrAttempts (MaxRetries cfg) lastErr), [])
  | S left' =>
      let pause :=
        if 0 <? attempt then [Sleep (wrap_int (RetryDelay cfg * attempt))] else [] in
      match executeAnalysisRequest (service attempt) now with
      | inr result => (inr result, pause ++ [Post attempt])
      | inl err =>
          let '(res, trace) :=
            attempts cfg service now left' (attempt + 1) (Some err) in
          (res, pause ++ Post attempt :: trace)
      end
  end.

(** [AnalyzeFrame]: attempts [0 .. MaxRetries]. *)
Definition AnalyzeFrame (cfg : ClientConfig) (service : Z -> reply) (now : Z)
  : (error + AnalysisResult) * list event :=
  attempts cfg service now (Z.to_nat (MaxRetries cfg + 1)) 0 None.

Definition posts (trace : list event) : list Z :=
  omap (fun e => match e with Post k => Some k | Sleep _ => None end) trace.

Definition sleeps (trace : list event) : list Z :=
  omap (fun e => match e with Sleep d => Some d | Post _ => None end) trace.

End ML.

(** * Package processor: the work queue *)

Module Queue.
Import Models.

(** The errors that travel through the processor. *)
Inductive error :=
| ErrML (e : ML.error)
| ErrWorkerPanic (reason : string)
| ErrProcessingFailed (reason : string)
| ErrCancelled
| ErrQueueFull
| ErrTimeout
| ErrShutdownTimeout.

Record ProcessingResult := mkResult {
  Analysis : option AnalysisResult;
  Error : option error
}.

(** [ResultChan] is a channel with a buffer of one; channels are named by
    numbers and their buffers kept in a store. *)
Record QueueItem := mkQueueItem {
  Request : FrameRequest;
  ResultChan : nat;
  StartTime : Z;
  Priority : Z
}.

Definition sinks := gmap nat (list ProcessingResult).

Definition buffered (s : sinks) (ch : nat) : list ProcessingResult :=
  default [] (s !! ch).

(** A send inside [select] with a [default] branch: dropped when the buffer
    is full. *)
Definition try_send (s : sinks) (ch : nat) (r : ProcessingResult) : sinks :=
  match buffered s ch with
  | [] => <[ch := [r]]> s
  | _ :: _ => s
  end.

(** What a call of the handler does: the results it sends on the item's
    channel and whether it panics afterwards. *)
Record handled := mkHandled {
  sent : list ProcessingResult;
  panic : option string
}.

Inductive worker_state :=
| Idle
| Busy (item : QueueItem)
| Exited.

(** The queue.  The field [workerFunc] is a closure over the processor and
    the service behind it: it is the argument [workerFunc] of the moves of
    the workers below. *)
Record ProcessingQueue := mkQueue {
  items : list QueueItem;        (* the buffer of the channel, oldest first *)
  capacity : Z;
  itemsClosed : bool;
  workers : Z;
  pool : list worker_state;      (* the worker goroutines *)
  shutdownClosed : bool;
  isRunning : bool
}.

Definition NewProcessingQueue (queueSize workers : Z) : ProcessingQueue :=
  mkQueue [] queueSize false workers (repeat Idle (Z.to_nat workers)) false true.

Definition with_items (q : ProcessingQueue) (l : list QueueItem) :=
  mkQueue l (capacity q) (itemsClosed q) (workers q) (pool q)
          (shutdownClosed q) (isRunning q).

Definition with_pool (q : ProcessingQueue) (p : list worker_state) :=
  mkQueue (items q) (capacity q) (itemsClosed q) (workers q) p
          (shutdownClosed q) (isRunning q).

(** [Enqueue]: refused when the queue is not running or the buffer is
    full. *)
Definition Enqueue (q : ProcessingQueue) (item : QueueItem) : bool * ProcessingQueue :=
  if negb (isRunning q) then (false, q)
  else if Z.of_nat (length (items q)) <? capacity q
       then (true, with_items q (items q ++ [item]))
       else (false, q).

Definition Size (q : ProcessingQueue) : Z := Z.of_nat (length (items q)).

(** The moves of the worker goroutines.  [Take w]: worker [w] receives the
    oldest item.  [Finish w]: the handler of worker [w] runs to its end; a
    panic is recovered and reported with a send that does not block.  The
    sends of the handler itself block: the move is not possible when they do
    not fit in the buffer.  [Leave w]: worker [w] takes the [shutdown]
    branch of its [select] and returns.  When both branches are ready Go
    picks either, so a worker may leave while items are waiting. *)
Inductive action :=
| Take (w : nat)
| Finish (w : nat)
| Leave (w : nat).

Definition deliver (s : sinks) (ch : nat) (rs : list ProcessingResult) : sinks :=
  match rs with
  | [] => s
  | _ :: _ => <[ch := buffered s ch ++ rs]> s
  end.

Definition act (workerFunc : QueueItem -> handled)
    (st : ProcessingQueue * sinks) (a : action) : ProcessingQueue * sinks :=
  let '(q, s) := st in
  match a with
  | Take w =>
      match pool q !! w, items q with
      | Some Idle, item :: rest =>
          (with_pool (with_items q rest) (<[w := Busy item]> (pool q)), s)
      | _, _ => st
      end
  | Finish w =>
      match pool q !! w with
      | Some (Busy item) =>
          let h := workerFunc item in
          if (1 <? length (buffered s (ResultChan item) ++ sent h))%nat then st
          else
            let s1 := deliver s (ResultChan item) (sent h) in
            let s2 := match panic h with
                      | Some r =>
                          try_send s1 (ResultChan item)
                                   (mkResult None (Some (ErrWorkerPanic r)))
                      | None => s1
                      end in
            (with_pool q (<[w := Idle]> (pool q)), s2)
      | _ => st
      end
  | Leave w =>
      match pool q !! w with
      | Some Idle =>
          if shutdownClosed q then (with_pool q (<[w := Exited]> (pool q)), s)
          else st
      | _ => st
      end
  end.

Definition all_exited (q : ProcessingQueue) : bool :=
  forallb (fun w => match w with Exited => true | _ => false end) (pool q).

(** [Shutdown].  [moves] are the moves of the workers between the close of
    [shutdown] and the moment the final [select] fires: it fires on [done]
    when every worker has returned by then, on the timer otherwise.  Both
    branches close [items]. *)
Definition Shutdown (workerFunc : QueueItem -> handled)
    (q : ProcessingQueue) (s : sinks) (moves : list action)
  : option error * ProcessingQueue * sinks :=
  if negb (isRunning q) then (None, q, s)
  else
    let q1 := mkQueue (items q) (capacity q) (itemsClosed q) (workers q)
                      (pool q) true false in
    let '(q2, s2) := fold_left (act workerFunc) moves (q1, s) in
    let q3 := mkQueue (items q2) (capacity q2) true (workers q2)
                      (pool q2) (shutdownClosed q2) (isRunning q2) in
    (if all_exited q2 then None else Some ErrShutdownTimeout, q3, s2).

Definition cancellation : ProcessingResult := mkResult None (Some ErrCancelled).

(** [DrainQueue]: receives until the buffer is empty and answers every item
    with a cancellation.  On a closed channel the receive never takes the
    [default] branch, and the loop does not end: there is no result then. *)
Definition DrainQueue (q : ProcessingQueue) (s : sinks)
  : option (Z * ProcessingQueue * sinks) :=
  if itemsClosed q then None
  else
    Some (Z.of_nat (length (items q)),
          with_items q [],
          fold_left (fun s' item => try_send s' (ResultChan item) cancellation)
                    (items q) s).

End Queue.

(** * Package processor: the frame processor *)

Module Processor.
Import Models Cache Queue.

Record ProcessorStats := mkStats {
  st_StartTime : Z;
  TotalProcessed : Z;
  SuccessfullyProcessed : Z;
  FailedProcessed : Z;
  AverageLatency : float64;
  QueueSize : Z;
  ActiveWorkers : Z
}.

Record ProcessorConfig := mkConfig {
  MaxQueueSize : Z;
  MaxWorkers : Z;
  ProcessingTimeout : Z;
  SkipSimilarFrames : bool;
  SimilarityThreshold : float64
}.

Definition default_config : ProcessorConfig := mkConfig 100 4 30 true (95 # 100).

(** [generateFeedback], for an analysis that is not nil. *)
Definition generateFeedback (analysis : AnalysisResult) : list Feedback :=
  (if PostureScore analysis <? 70 then
     [mkFeedback "warning"
        "Improve your riding posture - keep your back straight and relax your shoulders"
        (PostureScore analysis) "" 0]
   else if 85 <? PostureScore analysis then
     [mkFeedback "success" "Excellent riding posture!" (PostureScore analysis) "" 0]
   else [])
  ++ (if LaneScore analysis <? 60 then
        [mkFeedback "error" "Maintain better lane position - you're drifting"
           (LaneScore analysis) "" 0]
      else [])
  ++ (if SpeedScore analysis <? 65 then
        [mkFeedback "warning" "Adjust your speed for current road conditions"
           (SpeedScore analysis) "" 0]
      else [])
  ++ (if 80 <? OverallScore analysis then
        [mkFeedback "success" "Great riding! Keep up the good work"
           (OverallScore analysis) "" 0]
      else []).

(** The second half of [processFrame]: feedback for an analysis, the
    neutral result for none. *)
Definition complete (analysis : option AnalysisResult) (now : Z) : AnalysisResult :=
  match analysis with
  | Some a => with_Feedback a (generateFeedback a)
  | None => mkAnalysisResult 50 50 50 50 [] [] [] 0%Q "" (now / Second)
  end.

(** [processFrame], the handler of the workers: what it sends on the
    channel of the item, and what it asked of the inference service.
    [AnalyzeFrame] never returns a nil analysis without an error. *)
Definition processFrame (client : ML.ClientConfig) (service : Z -> ML.reply)
    (now : Z) (item : QueueItem) : ProcessingResult * list ML.event :=
  let '(res, trace) := ML.AnalyzeFrame client service now in
  match res with
  | inl err => (mkResult None (Some (ErrML err)), trace)
  | inr analysis => (mkResult (Some (complete (Some analysis) now)) None, trace)
  end.

Definition generateFrameHash (imageData : list byte) : string :=
  MD5.hex (MD5.Sum imageData).

(** [getCachedResult]: the answer for a frame that was seen before. *)
Definition getCachedResult (now : Z) : AnalysisResult :=
  mkAnalysisResult 75 80 70 75 [] 
    [mkFeedback "info" "Using cached result for similar frame" 75 "" 0]
    [] 0%Q "" (now / Second).

(** [calculatePriority]; the timestamp of the request is in milliseconds. *)
Definition calculatePriority (request : FrameRequest) (now : Z) : Z :=
  let p1 := if String.eqb (ClientID request) "" then 1 else 2 in
  let age := now - Z.quot (Timestamp request) 1000 * Second in
  if age <? 1 * Second then p1 + 2
  else if age <? 5 * Second then p1 + 1
  else p1.

Definition updateLatencyStats (s : ProcessorStats) (latency : Z) : ProcessorStats :=
  let currentLatency := inject_Z (Z.quot latency 1000000) in
  let avg :=
    if Qeq_bool (AverageLatency s) 0 then currentLatency
    else ((1 # 10) * currentLatency + (1 - (1 # 10)) * AverageLatency s)%Q in
  mkStats (st_StartTime s) (TotalProcessed s) (SuccessfullyProcessed s)
          (FailedProcessed s) avg (QueueSize s) (ActiveWorkers s).

Definition count_total (s : ProcessorStats) : ProcessorStats :=
  mkStats (st_StartTime s) (wrap_int (TotalProcessed s + 1))
          (SuccessfullyProcessed s) (FailedProcessed s) (AverageLatency s)
          (QueueSize s) (ActiveWorkers s).

Definition count_success (s : ProcessorStats) : ProcessorStats :=
  mkStats (st_StartTime s) (TotalProcessed s)
          (wrap_int (SuccessfullyProcessed s + 1)) (FailedProcessed s)
          (AverageLatency s) (QueueSize s) (ActiveWorkers s).

Definition count_failure (s : ProcessorStats) : ProcessorStats :=
  mkStats (st_StartTime s) (TotalProcessed s) (SuccessfullyProcessed s)
          (wrap_int (FailedProcessed s + 1)) (AverageLatency s)
          (QueueSize s) (ActiveWorkers s).

Section WithCache.
Context {C : Type} `{CacheOps C}.

(** The processor; [cache] may be nil. *)
Record FrameProcessor := mkProcessor {
  mlClient : ML.ClientConfig;
  queue : ProcessingQueue;
  stats : ProcessorStats;
  config : ProcessorConfig;
  cache : option C
}.

(** [NewFrameProcessor], at the instant [now]. *)
Definition NewFrameProcessor (client : ML.ClientConfig) (cache : option C) (now : Z)
  : FrameProcessor :=
  mkProcessor client
    (NewProcessingQueue (MaxQueueSize default_config) (MaxWorkers default_config))
    (mkStats now 0 0 0 0%Q 0 (MaxWorkers default_config))
    default_config cache.

(** What lies outside the processor during one call of [ProcessFrame]: the
    inference service, whether a worker answers the item before the timeout
    of the caller, and the reading of the clock when it does. *)
Record world := mkWorld {
  service : Z -> ML.reply;
  served : bool;
  finish : Z
}.

(** [isSimilarFrame]; the goroutine that marks the frame as seen is run on
    the spot.  A nil cache is dereferenced. *)
Definition isSimilarFrame (fp : FrameProcessor) (imageData : list byte) (now : Z)
  : outcome (bool * option C) :=
  if negb (SkipSimilarFrames (config fp)) then Returns (false, cache fp)
  else
    match cache fp with
    | None => Panics "invalid memory address or nil pointer dereference"
    | Some c =>
        let similarityKey :=
          GenerateCacheKey ["similarity"; generateFrameHash imageData]%string in
        match Exists c similarityKey now with
        | (_, Some _) => Returns (false, Some c)
        | (true, None) => Returns (true, Some c)
        | (false, None) =>
            Returns (false,
                     Some (snd (SetWithTTL c similarityKey (ABool true) (5 * Minute) now)))
        end
    end.

(** What [&cachedResult] points to after the call of [Get]. *)
Definition pointee (d : dest) : AnalysisResult :=
  match d with
  | DestResult r => r
  | _ => zero_AnalysisResult
  end.

Record returned := mkReturned {
  answer : outcome (Queue.error + AnalysisResult);
  after : FrameProcessor;
  asked : list ML.event      (* what was asked of the inference service *)
}.

Definition with_stats (fp : FrameProcessor) (s : ProcessorStats) (c : option C) :=
  mkProcessor (mlClient fp) (queue fp) s (config fp) c.

(** The part of [ProcessFrame] after the cache lookup missed.  The channel
    of the item is private to the call: when a worker serves the item, what
    it sends is handed to the caller directly, and the item has left the
    buffer; otherwise the caller gives up on the timeout and the item stays
    behind. *)
Definition dispatch (fp : FrameProcessor) (request : FrameRequest)
    (cacheKey : string) (now : Z) (w : world) : returned :=
  match (if SkipSimilarFrames (config fp)
         then isSimilarFrame fp (ImageData request) now
         else Returns (false, cache fp)) with
  | Panics r => mkReturned (Panics r) fp []
  | Returns (true, c1) =>
      mkReturned (Returns (inr (getCachedResult now))) (with_stats fp (stats fp) c1) []
  | Returns (false, c1) =>
      let queueItem :=
        mkQueueItem request 0 now (calculatePriority request now) in
      let '(accepted, q1) := Enqueue (queue fp) queueItem in
      if negb accepted then
        mkReturned (Returns (inl ErrQueueFull))
          (mkProcessor (mlClient fp) (queue fp) (count_failure (stats fp)) (config fp) c1)
          []
      else if negb (served w) then
        mkReturned (Returns (inl ErrTimeout))
          (mkProcessor (mlClient fp) q1 (count_failure (stats fp)) (config fp) c1)
          []
      else
        let '(result, trace) :=
          processFrame (mlClient fp) (service w) (finish w) queueItem in
        match Error result with
        | Some err =>
            mkReturned (Returns (inl err))
              (mkProcessor (mlClient fp) (queue fp) (count_failure (stats fp))
                           (config fp) c1)
              trace
        | None =>
            let s1 := count_success (updateLatencyStats (stats fp) (finish w - now)) in
            let c2 :=
              match c1, Analysis result with
              | Some c, Some a => Some (snd (Set_ c cacheKey (AResult a) (finish w)))
              | _, _ => c1
              end in
            mkReturned
              (Returns (inr (default zero_AnalysisResult (Analysis result))))
              (mkProcessor (mlClient fp) (queue fp) s1 (config fp) c2)
              trace
        end
  end.

(** [ProcessFrame].  The goroutine that stores the result in the cache is
    run on the spot, at the instant the result arrived. *)
Definition ProcessFrame (fp : FrameProcessor) (request : FrameRequest)
    (now : Z) (w : world) : returned :=
  let fp0 := with_stats fp (count_total (stats fp)) (cache fp) in
  let frameHash := generateFrameHash (ImageData request) in
  let cacheKey := GenerateCacheKey ["frame"; frameHash; ClientID request]%string in
  match cache fp0 with
  | None => dispatch fp0 request cacheKey now w
  | Some c =>
      match Get c cacheKey (DestResult zero_AnalysisResult) now with
      | Panics r => mkReturned (Panics r) fp0 []
      | Returns (None, d, c') =>
          mkReturned (Returns (inr (pointee d)))
                     (with_stats fp0 (count_success (stats fp0)) (Some c')) []
      | Returns (Some _, _, c') =>
          dispatch (with_stats fp0 (stats fp0) (Some c')) request cacheKey now w
      end
  end.

End WithCache.

Arguments FrameProcessor C : clear implicits.
Arguments returned C : clear implicits.

End Processor.

(** * encoding/base64: the standard encoding

    [base64.StdEncoding] of the Go standard library, with padding and
    without the strict option.  The shifts and masks of the library are
    written as multiplications, divisions and remainders. *)

Module Base64.

Definition alphabet : list ascii :=
  list_ascii_of_string
    "ABCDEFGHIJKLMNOPQRSTUVWXYZabcdefghijklmnopqrstuvwxyz0123456789+/".

Definition padChar : ascii := "="%char.

Definition encode_char (n : Z) : ascii := nth (Z.to_nat n) alphabet "A"%char.

(** The decode map of the encoding. *)
Definition decode_char (c : ascii) : option Z :=
  let n := Z.of_N (N_of_ascii c) in
  if (65 <=? n) && (n <=? 90) then Some (n - 65)
  else if (97 <=? n) && (n <=? 122) then Some (n - 97 + 26)
  else if (48 <=? n) && (n <=? 57) then Some (n - 48 + 52)
  else if n =? 43 then Some 62
  else if n =? 47 then Some 63
  else None.

Definition byte_val : byte -> Z := MD5.byte_val.
Definition byte_of : Z -> byte := MD5.byte_of.

(** [EncodeToString]. *)
Fixpoint EncodeToString (src : list byte) : string :=
  match src with
  | [] => EmptyString
  | [a] =>
      let val := byte_val a * 65536 in
      String (encode_char (val / 262144))
        (String (encode_char (val / 4096 mod 64))
           (String padChar (String padChar EmptyString)))
  | [a; b] =>
      let val := byte_val a * 65536 + byte_val b * 256 in
      String (encode_char (val / 262144))
        (String (encode_char (val / 4096 mod 64))
           (String (encode_char (val / 64 mod 64))
              (String padChar EmptyString)))
  | a :: b :: c :: rest =>
      let val := byte_val a * 65536 + byte_val b * 256 + byte_val c in
      String (encode_char (val / 262144))
        (String (encode_char (val / 4096 mod 64))
           (String (encode_char (val / 64 mod 64))
              (String (encode_char (val mod 64)) (EncodeToString rest))))
  end.

Definition is_newline (c : ascii) : bool :=
  (Ascii.eqb c "010"%char || Ascii.eqb c "013"%char)%bool.

(** The decoder skips the characters CR and LF wherever they stand. *)
Fixpoint strip_newlines (s : string) : string :=
  match s with
  | EmptyString => EmptyString
  | String c rest =>
      if is_newline c then strip_newlines rest else String c (strip_newlines rest)
  end.

(** The quanta of four characters; padding is accepted in the last one
    only, and nothing may follow it. *)
Fixpoint decode_quanta (s : string) : option (list byte) :=
  match s with
  | EmptyString => Some []
  | String c1 (String c2 (String c3 (String c4 rest))) =>
      match decode_char c1, decode_char c2 with
      | Some v1, Some v2 =>
          match decode_char c3, decode_char c4 with
          | Some v3, Some v4 =>
              let val := v1 * 262144 + v2 * 4096 + v3 * 64 + v4 in
              match decode_quanta rest with
              | Some bs =>
                  Some (byte_of (val / 65536) :: byte_of (val / 256)
                          :: byte_of val :: bs)
              | None => None
              end
          | Some v3, None =>
              let val := v1 * 262144 + v2 * 4096 + v3 * 64 in
              if Ascii.eqb c4 padChar && String.eqb rest ""
              then Some [byte_of (val / 65536); byte_of (val / 256)]
              else None
          | None, _ =>
              let val := v1 * 262144 + v2 * 4096 in
              if Ascii.eqb c3 padChar && Ascii.eqb c4 padChar && String.eqb rest ""
              then Some [byte_of (val / 65536)]
              else None
          end
      | _, _ => None
      end
  | _ => None
  end.

(** [DecodeString]; [None] stands for a [CorruptInputError], whose offset
    is not kept. *)
Definition DecodeString (s : string) : option (list byte) :=
  decode_quanta (strip_newlines s).

End Base64.

(** * Package handlers: data URLs *)

Module Handlers.

Definition comma : ascii := ","%char.

(** [strings.Contains(s, ",")]. *)
Fixpoint has_comma (s : string) : bool :=
  match s with
  | EmptyString => false
  | String c rest => Ascii.eqb c comma || has_comma rest
  end.

(** [strings.Split(s, ",")]: the pieces between the commas, one more than
    there are commas. *)
Fixpoint Split (s : string) : list string :=
  match s with
  | EmptyString => [EmptyString]
  | String c rest =>
      if Ascii.eqb c comma then EmptyString :: Split rest
      else match Split rest with
           | piece :: pieces => String c piece :: pieces
           | [] => [String c EmptyString]
           end
  end.

Inductive error :=
| ErrBadHandshake          (* websocket.ErrBadHandshake *)
| ErrInvalidDataURL        (* "invalid data URL format" *)
| CorruptInputError.       (* from base64 *)

Definition extract (format_error : error) (dataURL : string) : error + list byte :=
  if negb (has_comma dataURL) then inl format_error
  else
    match Split dataURL with
    | [_; payload] =>
        match Base64.DecodeString payload with
        | Some imageData => inr imageData
        | None => inl CorruptInputError
        end
    | _ => inl format_error
    end.

(** [WebSocketHandler.extractImageData]. *)
Definition WebSocketHandler_extractImageData (dataURL : string) : error + list byte :=
  extract ErrBadHandshake dataURL.

(** [StreamHandler.extractImageData]. *)
Definition StreamHandler_extractImageData (dataURL : string) : error + list byte :=
  extract ErrInvalidDataURL dataURL.

Fixpoint count_commas (s : string) : nat :=
  match s with
  | EmptyString => O
  | String c rest => ((if Ascii.eqb c comma then 1 else 0) + count_commas rest)%nat
  end.

End Handlers.


(** * Callers and neighbours of the code above *)

(** ** The rate limiter with several clients *)

Module RateLimitUse.
Import RateLimit.

(** Calls of several clients, in the order in which they take the lock of
    the map. *)
Fixpoint serve_all (rl : RateLimiter) (rps burst : Z) (calls : list (string * Z))
  : list (string * bool) * RateLimiter :=
  match calls with
  | [] => ([], rl)
  | (ip, t) :: rest =>
      let '(ok, rl1) := allowRequestWithConfig rl ip t rps burst in
      let '(log, rl2) := serve_all rl1 rps burst rest in
      ((ip, ok) :: log, rl2)
  end.

Definition of_client {A : Type} (ip : string) (l : list (string * A)) : list A :=
  List.map snd (List.filter (fun e => String.eqb (fst e) ip) l).

End RateLimitUse.

(** ** The work queue in use *)

Module QueueUse.
Import Models Queue.

(** What happens to a queue: a caller offers an item, or a worker moves. *)
Inductive op :=
| Put (item : QueueItem)
| Move (a : action).

(** The items that [Enqueue] accepted and the items that the workers
    received, each in the order in which it happened. *)
Record history := mkHistory {
  accepted : list QueueItem;
  received : list QueueItem
}.

(** What the receive of a worker hands out. *)
Definition receives (q : ProcessingQueue) (a : action) : list QueueItem :=
  match a with
  | Take w =>
      match pool q !! w, items q with
      | Some Idle, item :: _ => [item]
      | _, _ => []
      end
  | _ => []
  end.

Definition step (workerFunc : QueueItem -> handled)
    (st : ProcessingQueue * sinks * history) (o : op)
  : ProcessingQueue * sinks * history :=
  let '(q, s, h) := st in
  match o with
  | Put item =>
      let '(ok, q') := Enqueue q item in
      (q', s, mkHistory (accepted h ++ (if ok then [item] else [])) (received h))
  | Move a =>
      let '(q', s') := act workerFunc (q, s) a in
      (q', s', mkHistory (accepted h) (received h ++ receives q a))
  end.

Definition run (workerFunc : QueueItem -> handled)
    (st : ProcessingQueue * sinks * history) (ops : list op)
  : ProcessingQueue * sinks * history :=
  fold_left (step workerFunc) ops st.

End QueueUse.

(** ** [PriorityQueue], the second queue of the package

    The slice [items] is a list; its elements are pointers that are not
    nil ([Push] reads [item.Priority]). *)

Module PriorityQueue.
Import Queue.

Definition t := list QueueItem.

Definition NewPriorityQueue : t := [].

(** The loop of [Push]: the first index whose item has a lower priority
    than the new one. *)
Fixpoint insertion_index (l : list QueueItem) (item : QueueItem) (i : nat)
  : option nat :=
  match l with
  | [] => None
  | existing :: rest =>
      if Priority existing <? Priority item then Some i
      else insertion_index rest item (S i)
  end.

(** [Push]: [append(items[:i], append([item], items[i:]...)...)] at that
    index, [append(items, item)] when there is none. *)
Definition Push (pq : t) (item : QueueItem) : t :=
  match insertion_index pq item 0 with
  | Some i => take i pq ++ item :: drop i pq
  | None => pq ++ [item]
  end.

(** [Pop]: nil on the empty queue. *)
Definition Pop (pq : t) : option QueueItem * t :=
  match pq with
  | [] => (None, pq)
  | item :: rest => (Some item, rest)
  end.

Definition Len (pq : t) : Z := Z.of_nat (length pq).

Definition Clear (pq : t) : t := [].

End PriorityQueue.

(** ** Shutting down

    [FrameProcessor.Shutdown] and the shutdown sequence of [main].  The
    cache of the server and the cache of the processor are one object:
    [NewServer] hands [cacheInstance] to [NewFrameProcessor] and keeps it
    in [Server.cache]. *)

Module Lifecycle.
Import Cache Queue Processor.

Inductive shutdown_error :=
| QueueError (e : Queue.error)
| CacheError (e : Cache.error).

Section WithCache.
Context {C : Type} `{CacheOps C}.

Definition with_queue (fp : FrameProcessor C) (q : ProcessingQueue) (c : option C)
  : FrameProcessor C :=
  mkProcessor (mlClient fp) q (stats fp) (config fp) c.

(** [FrameProcessor.Shutdown]: the queue first, with its wait of 30
    seconds, then the cache, unless the queue reported an error.
    [workerFunc] and [moves] are those of [Queue.Shutdown]. *)
Definition Shutdown (workerFunc : QueueItem -> handled) (fp : FrameProcessor C)
    (s : sinks) (moves : list action)
  : outcome (option shutdown_error * FrameProcessor C * sinks) :=
  let '(err, q', s') := Queue.Shutdown workerFunc (queue fp) s moves in
  match err with
  | Some e => Returns (Some (QueueError e), with_queue fp q' (cache fp), s')
  | None =>
      match cache fp with
      | None => Returns (None, with_queue fp q' None, s')
      | Some c =>
          match Close c with
          | Panics r => Panics r
          | Returns (Some e, c') =>
              Returns (Some (CacheError e), with_queue fp q' (Some c'), s')
          | Returns (None, c') => Returns (None, with_queue fp q' (Some c'), s')
          end
      end
  end.

(** The end of [main], from the signal on: the processor is shut down (an
    error is logged), the ticker of the rate limiter is stopped, and the
    cache is closed. *)
Definition main_shutdown (workerFunc : QueueItem -> handled) (fp : FrameProcessor C)
    (s : sinks) (moves : list action) : outcome (FrameProcessor C * sinks) :=
  match Shutdown workerFunc fp s moves with
  | Panics r => Panics r
  | Returns (_, fp1, s1) =>
      match cache fp1 with
      | None => Returns (fp1, s1)
      | Some c =>
          match Close c with
          | Panics r => Panics r
          | Returns (_, c') => Returns (with_queue fp1 (queue fp1) (Some c'), s1)
          end
      end
  end.

End WithCache.

End Lifecycle.

(** ** Package middleware: the bearer token and the sanitising of queries

    Header values and query values are strings of bytes. *)

Module Middleware.

(** [strings.Split(s, sep)] for a separator of one byte. *)
Fixpoint Split (s : string) (sep : ascii) : list string :=
  match s with
  | EmptyString => [EmptyString]
  | String c rest =>
      if Ascii.eqb c sep then EmptyString :: Split rest sep
      else match Split rest sep with
           | piece :: pieces => String c piece :: pieces
           | [] => [String c EmptyString]
           end
  end.

Definition space : ascii := " "%char.

(** [AuthMiddleware.extractToken]; [authHeader] is what
    [c.GetHeader("Authorization")] returns, the empty string when the
    request has no such header. *)
Definition extractToken (authHeader : string) : string :=
  if String.eqb authHeader "" then ""%string
  else
    match Split authHeader space with
    | [p0; p1] => if negb (String.eqb p0 "Bearer") then ""%string else p1
    | _ => ""%string
    end.

(** [strings.ReplaceAll(s, old, new)] for an [old] of one byte. *)
Fixpoint ReplaceAll (s : string) (old : ascii) (new : string) : string :=
  match s with
  | EmptyString => EmptyString
  | String c rest =>
      if Ascii.eqb c old then (new ++ ReplaceAll rest old new)%string
      else String c (ReplaceAll rest old new)
  end.

(** The double quote. *)
Definition dquote : ascii := ascii_of_nat 34.

(** What [InputValidation] computes for a query value before it stores it
    in the map that [URL.Query()] returned. *)
Definition sanitize (value : string) : string :=
  let sanitized := ReplaceAll value "<"%char "&lt;" in
  let sanitized := ReplaceAll sanitized ">"%char "&gt;" in
  let sanitized := ReplaceAll sanitized dquote "&quot;" in
  let sanitized := ReplaceAll sanitized "'"%char "&#x27;" in
  ReplaceAll sanitized "&"%char "&amp;".

End Middleware.

(** ** Package handlers: the upload of one frame over HTTP *)

Module StreamHandler.
Import Models Cache Queue.

Record SystemStats := mkSystemStats {
  TotalFrames : Z;
  ProcessedOK : Z;
  ProcessedError : Z;
  AvgProcessTime : float64;
  LastUpdated : Z;
  ActiveClients : Z
}.

Record FrameUploadRequest := mkUpload {
  up_ImageData : string;
  up_Timestamp : Z
}.

(** What [c.JSON] is called with. *)
Inductive response :=
| BadRequest (error : string)
| InternalServerError (error : string)
| OK (analysis : AnalysisResult) (processing_time : Z) (timestamp : Z).

Definition status (r : response) : Z :=
  match r with
  | BadRequest _ => 400
  | InternalServerError _ => 500
  | OK _ _ _ => 200
  end.

Definition count_frame (s : SystemStats) : SystemStats :=
  mkSystemStats (wrap_int (TotalFrames s + 1)) (ProcessedOK s) (ProcessedError s)
                (AvgProcessTime s) (LastUpdated s) (ActiveClients s).

Definition count_error (s : SystemStats) : SystemStats :=
  mkSystemStats (TotalFrames s) (ProcessedOK s) (wrap_int (ProcessedError s + 1))
                (AvgProcessTime s) (LastUpdated s) (ActiveClients s).

Definition count_ok (s : SystemStats) : SystemStats :=
  mkSystemStats (TotalFrames s) (wrap_int (ProcessedOK s + 1)) (ProcessedError s)
                (AvgProcessTime s) (LastUpdated s) (ActiveClients s).

(** [updateProcessingStats]; [duration.Milliseconds()] rounds towards
    zero. *)
Definition updateProcessingStats (s : SystemStats) (duration : Z) : SystemStats :=
  let currentTime := inject_Z (Z.quot duration 1000000) in
  let avg :=
    if Qeq_bool (AvgProcessTime s) 0 then currentTime
    else ((1 # 10) * currentTime + (1 - (1 # 10)) * AvgProcessTime s)%Q in
  mkSystemStats (TotalFrames s) (ProcessedOK s) (ProcessedError s) avg
                (LastUpdated s) (ActiveClients s).

Section WithCache.
Context {C : Type} `{CacheOps C}.

(** The handler and what it leaves behind; a panic of the processor passes
    through the handler. *)
Record handled_request := mkHandledRequest {
  reply : outcome response;
  stats_after : SystemStats;
  processor_after : Processor.FrameProcessor C
}.

(** [StreamHandler.ProcessFrame].  [bound] is what [ShouldBindJSON] made of
    the body, nothing when it returned an error; [clientIP] is
    [c.ClientIP()]; [now] is the clock at the start of the request and
    [done] the clock when the processor has answered. *)
Definition ProcessFrame (stats : SystemStats) (fp : Processor.FrameProcessor C)
    (bound : option FrameUploadRequest) (clientIP : string)
    (now : Z) (w : Processor.world) (done : Z) : handled_request :=
  let stats0 := count_frame stats in
  match bound with
  | None =>
      mkHandledRequest (Returns (BadRequest "Invalid request format"))
                       (count_error stats0) fp
  | Some request =>
      match Handlers.StreamHandler_extractImageData (up_ImageData request) with
      | inl _ =>
          mkHandledRequest (Returns (BadRequest "Invalid image data"))
                           (count_error stats0) fp
      | inr imageData =>
          let frameRequest :=
            mkFrameRequest imageData (up_Timestamp request) clientIP [] in
          let r := Processor.ProcessFrame fp frameRequest now w in
          match Processor.answer r with
          | Panics reason =>
              mkHandledRequest (Panics reason) stats0 (Processor.after r)
          | Returns (inl _) =>
              mkHandledRequest (Returns (InternalServerError "Processing failed"))
                               (count_error stats0) (Processor.after r)
          | Returns (inr result) =>
              let processingTime := done - now in
              mkHandledRequest
                (Returns (OK result (Z.quot processingTime 1000000) (done / Second)))
                (count_ok (updateProcessingStats stats0 processingTime))
                (Processor.after r)
          end
      end
  end.

End WithCache.

Arguments handled_request C : clear implicits.

End StreamHandler.
(** * Theorems *)

(** ** Machine integers *)

Lemma wrap_int_id z : is_int z -> wrap_int z = z.
Proof.
  unfold is_int, min_int, max_int, wrap_int. intros H.
  rewrite Z.mod_small; lia.
Qed.


(** ** The digest *)

(** The test suite of RFC 1321, in part. *)
Example md5_test_suite :
  MD5.hex (MD5.Sum (list_byte_of_string "")) = "d41d8cd98f00b204e9800998ecf8427e"
  /\ MD5.hex (MD5.Sum (list_byte_of_string "abc"))
     = "900150983cd24fb0d6963f7d28e17f72"
  /\ MD5.hex (MD5.Sum (list_byte_of_string "message digest"))
     = "f96b697d7cb7938d525a2f31aaf161d0"
  /\ MD5.hex (MD5.Sum (list_byte_of_string
       "12345678901234567890123456789012345678901234567890123456789012345678901234567890"))
     = "57edf4a22be3c955ac49da2e2107b67a".
Proof. vm_compute. repeat split. Qed.
(** ** The rate limiter *)

Module RateLimitSpec.
Import RateLimit.


Lemma tokensToAdd_small elapsed rps :
  0 <= elapsed -> 0 <= rps -> elapsed * rps < Second ->
  tokensToAdd elapsed rps = 0.
Proof.
  intros He Hr Hlt. unfold tokensToAdd.
  apply Z.quot_small. nia.
Qed.







Lemma clock_weaken evs : forall lo lo' hi,
  lo' <= lo -> clock lo hi evs -> clock lo' hi evs.
Proof.
  destruct evs as [|e rest]; intros lo lo' hi Hle Hc; [exact I|].
  destruct Hc as [Ht Hc]. split; [lia | exact Hc].
Qed.











(** C10. A call that comes less than [1/rps] seconds after the previous one
    refills nothing and still moves [lastUpdate]; so a client with an empty
    bucket whose calls are each less than [1/rps] seconds apart is refused
    every time, however long the run lasts. *)
Theorem starved_client_never_served ts : forall rl ip rps burst b,
  0 < rps -> is_int burst ->
  clients rl !! ip = Some b -> tokens b = 0 ->
  short_gaps rps (lastUpdate b) ts ->
  Forall (fun e => fst e = false) (fst (serve rl ip rps burst ts)).
Proof.
  assert (Hgen : forall ts rl ip rps burst b,
    0 < rps -> is_int burst ->
    clients rl !! ip = Some b -> tokens b <= 0 -> is_int (tokens b) ->
    short_gaps rps (lastUpdate b) ts ->
    Forall (fun e => fst e = false) (fst (serve rl ip rps burst ts))).
  { clear ts. induction ts as [|t rest IH];
      intros rl ip rps burst b Hr Hb Hl Hz Hi Hg.
    - apply Forall_nil_2.
    - destruct Hg as (Hge & Hlt & Hg).
      cbn [serve]. unfold allowRequestWithConfig, allowRequest. rewrite Hl.
      rewrite (tokensToAdd_small (t - lastUpdate b) rps Hge ltac:(lia) Hlt).
      rewrite Z.add_0_r, wrap_int_id by exact Hi.
      set (t2 := if burst <? tokens b then burst else tokens b).
      assert (Ht2 : t2 <= 0 /\ is_int t2).
      { subst t2. destruct (burst <? tokens b) eqn:E.
        - apply Z.ltb_lt in E. split; [lia | exact Hb].
        - split; assumption. }
      destruct Ht2 as [Hle Hint].
      replace (0 <? t2) with false by (symmetry; apply Z.ltb_ge; lia).
      cbn [clients with_clients]. rewrite lookup_insert_eq.
      set (rl1 := with_clients rl (<[ip:=mkBucket t2 t]> (clients rl))).
      specialize (IH rl1 ip rps burst (mkBucket t2 t) Hr Hb).
      destruct (serve rl1 ip rps burst rest) as [log rl2].
      cbn [fst] in *. constructor; [reflexivity|].
      apply IH; cbn; try assumption.
      subst rl1. cbn. apply lookup_insert_eq. }
  intros rl ip rps burst b Hr Hb Hl Hz Hg.
  apply (Hgen ts rl ip rps burst b); try assumption.
  - lia.
  - rewrite Hz. unfold is_int, min_int, max_int. lia.
Qed.

(** With [rps = 2] a fresh token is due every half second; calls every 0.4
    seconds on an empty bucket are refused for two full seconds. *)
Lemma starved_client_never_served_witness :
  let rl := mkLimiter {[ "10.0.0.1" := mkBucket 0 0 ]} 2 3 in
  let ts := [400000000; 800000000; 1200000000; 1600000000; 2000000000] in
  Forall (fun e => fst e = false) (fst (serve rl "10.0.0.1" 2 3 ts)).
Proof.
  apply (starved_client_never_served
           [400000000; 800000000; 1200000000; 1600000000; 2000000000]
           (mkLimiter {[ "10.0.0.1" := mkBucket 0 0 ]} 2 3)
           "10.0.0.1" 2 3 (mkBucket 0 0)).
  - lia.
  - unfold is_int, min_int, max_int. lia.
  - cbn. apply lookup_singleton_eq.
  - reflexivity.
  - cbn. unfold Second. lia.
Defined.

(** Scenario "rate limit" of the specification: [rps = 2], [burst = 3], five
    requests at once, two more one second later. *)
Example burst_then_refill :
  map fst (fst (serve (mkLimiter ∅ 2 3) "10.0.0.1" 2 3
                  [0; 0; 0; 0; 0; Second; Second]))
  = [true; true; true; false; false; true; true].
Proof. vm_compute. reflexivity. Qed.

End RateLimitSpec.

(** ** The caches *)

Module CacheSpec.
Import Models Cache.

(** An item that [Get] finds and that has not expired at [now]. *)
Definition live (m : gmap string CacheItem) (key : string) (now : Z)
    (item : CacheItem) : Prop :=
  m !! key = Some item /\ (ExpiresAt item <? now) = false.

(** The dynamic type of [dest] is "pointer to [interface{}]". *)
Definition any_pointer (d : dest) : bool :=
  match d with
  | DestAny _ | DestAnyNil => true
  | _ => false
  end.

Lemma store_through_other d v :
  any_pointer d = false -> store_through d v = Returns d.
Proof. destruct d; cbn; intros H; try reflexivity; discriminate. Qed.

(** *** [Get] on a live item *)

Lemma MemoryCache_Get_live c key now item d :
  live (MemoryCache.items c) key now item ->
  (forall x, d = DestAny x ->
     exists c', MemoryCache.Get c key d now = Returns (None, DestAny (Value item), c')) /\
  (any_pointer d = false ->
     exists c', MemoryCache.Get c key d now = Returns (None, d, c')).
Proof.
  intros [Hl He]. unfold MemoryCache.Get. rewrite Hl, He. split.
  - intros x ->. cbn. eauto.
  - intros Hd. rewrite (store_through_other d _ Hd). eauto.
Qed.

Lemma RedisCache_Get_live c key now item d :
  live (RedisCache.items c) key now item ->
  (forall x, d = DestAny x ->
     RedisCache.Get c key d now = Returns (None, DestAny (Value item), c)) /\
  (any_pointer d = false ->
     RedisCache.Get c key d now = Returns (None, d, c)).
Proof.
  intros [Hl He]. unfold RedisCache.Get. rewrite Hl, He. split.
  - intros x ->. reflexivity.
  - intros Hd. now rewrite (store_through_other d _ Hd).
Qed.

(** *** The counters *)

(** [Increment] does what is asked of a counter: 1 for a missing or an
    expired entry, 1 for a live value that is not an [int64], one more for a
    live [int64]; the expiry of a live entry is kept. *)
Lemma MemoryCache_Increment_spec c key now :
  let '(n, err, c') := MemoryCache.Increment c key now in
  err = None /\
  (exists item', MemoryCache.items c' !! key = Some item' /\
     Value item' = AInt64 n /\
     match MemoryCache.items c !! key with
     | None => n = 1 /\ ExpiresAt item' = now + MemoryCache.ttl c
     | Some item =>
         if ExpiresAt item <? now
         then n = 1 /\ ExpiresAt item' = now + MemoryCache.ttl c
         else ExpiresAt item' = ExpiresAt item /\
              match Value item with
              | AInt64 count => n = wrap_int (count + 1)
              | _ => n = 1
              end
     end).
Proof.
  unfold MemoryCache.Increment.
  destruct (MemoryCache.items c !! key) as [item|] eqn:Hl.
  - destruct (ExpiresAt item <? now) eqn:He; cbn.
    + split; [reflexivity|]. eexists. rewrite lookup_insert_eq. eauto.
    + split; [reflexivity|]. eexists. rewrite lookup_insert_eq.
      repeat split. destruct (Value item); reflexivity.
  - cbn. split; [reflexivity|]. eexists. rewrite lookup_insert_eq. eauto.
Qed.

(** [IncrementWithTTL] always sets the expiry to [now + ttl]; it never looks
    at the old expiry, so an entry that has expired keeps counting. *)
Lemma MemoryCache_IncrementWithTTL_spec c key ttl now :
  let '(n, err, c') := MemoryCache.IncrementWithTTL c key ttl now in
  err = None /\
  (exists item', MemoryCache.items c' !! key = Some item' /\
     Value item' = AInt64 n /\ ExpiresAt item' = now + ttl /\
     match MemoryCache.items c !! key with
     | None => n = 1
     | Some item =>
         match Value item with
         | AInt64 count => n = wrap_int (count + 1)
         | _ => n = 1
         end
     end).
Proof.
  unfold MemoryCache.IncrementWithTTL.
  destruct (MemoryCache.items c !! key) as [item|] eqn:Hl; cbn.
  - split; [reflexivity|]. eexists. rewrite lookup_insert_eq.
    repeat split. destruct (Value item); reflexivity.
  - split; [reflexivity|]. eexists. rewrite lookup_insert_eq. eauto.
Qed.

(** C5. A counter that reached 5 and expired at instant 10 is incremented
    with a fresh TTL at instant 20: both caches answer 6 where the claim
    asks for 1, while [Increment] on the same entry answers 1. *)
Theorem IncrementWithTTL_counts_an_expired_entry :
  let stale := mkItem (AInt64 5) 10 3 5 in
  let mc := MemoryCache.mk {[ "hits" := stale ]} 1000 (5 * Minute) true false in
  let rc := RedisCache.mk {[ "hits" := stale ]} (5 * Minute) true false in
  fst (fst (MemoryCache.IncrementWithTTL mc "hits" Minute 20)) = 6 /\
  fst (fst (RedisCache.IncrementWithTTL rc "hits" Minute 20)) = 6 /\
  fst (fst (MemoryCache.Increment mc "hits" 20)) = 1 /\
  fst (fst (RedisCache.Increment rc "hits" 20)) = 1.
Proof. vm_compute. repeat split. Qed.

(** *** [Close] *)

Definition MemoryCache_closed (c : MemoryCache.t) : MemoryCache.t :=
  MemoryCache.mk (MemoryCache.items c) (MemoryCache.maxSize c) (MemoryCache.ttl c)
                 false true.

Definition RedisCache_closed (c : RedisCache.t) : RedisCache.t :=
  RedisCache.mk (RedisCache.items c) (RedisCache.ttl c) false true.

(** The operations of a cache answer on [closed c] as they do on [c], and
    leave the same state behind, closed. *)
Definition unaffected {C : Type} `{CacheOps C} (closed : C -> C) (c : C) : Prop :=
  forall (key : string) (v : any) (d : dest) (ttl now : Z),
    Set_ (closed c) key v now = (None, closed (snd (Set_ c key v now))) /\
    SetWithTTL (closed c) key v ttl now
      = (None, closed (snd (SetWithTTL c key v ttl now))) /\
    Get (closed c) key d now
      = match Get c key d now with
        | Returns (err, d', c') => Returns (err, d', closed c')
        | Panics r => Panics r
        end /\
    Delete (closed c) key = (None, closed (snd (Delete c key))) /\
    Exists (closed c) key now = Exists c key now /\
    GetTTL (closed c) key now = GetTTL c key now /\
    Increment (closed c) key now
      = (let '(n, err, c') := Increment c key now in (n, err, closed c')) /\
    IncrementWithTTL (closed c) key ttl now
      = (let '(n, err, c') := IncrementWithTTL c key ttl now in (n, err, closed c')).

(** No operation reads [stopCh] or the ticker. *)
Lemma MemoryCache_ops_ignore_close c : unaffected MemoryCache_closed c.
Proof.
  intros key v d ttl now. cbn [Set_ SetWithTTL Get Delete Exists GetTTL Increment
    IncrementWithTTL MemoryCache_ops].
  unfold MemoryCache.Set_, MemoryCache.SetWithTTL, MemoryCache.Get,
    MemoryCache.Delete, MemoryCache.Exists, MemoryCache.GetTTL,
    MemoryCache.Increment, MemoryCache.IncrementWithTTL, MemoryCache.make_room,
    MemoryCache_closed.
  cbn [MemoryCache.items MemoryCache.maxSize MemoryCache.ttl MemoryCache.with_items
       MemoryCache.ticking MemoryCache.stopClosed snd].
  repeat split.
  - destruct (MemoryCache.items c !! key) as [item|]; [|reflexivity].
    destruct (ExpiresAt item <? now); [reflexivity|].
    destruct (store_through d (Value item)); reflexivity.
  - destruct (MemoryCache.items c !! key) as [item|]; [|reflexivity].
    destruct (ExpiresAt item <? now); reflexivity.
  - destruct (MemoryCache.items c !! key) as [item|]; reflexivity.
Qed.

Lemma RedisCache_ops_ignore_close c : unaffected RedisCache_closed c.
Proof.
  intros key v d ttl now. cbn [Set_ SetWithTTL Get Delete Exists GetTTL Increment
    IncrementWithTTL RedisCache_ops].
  unfold RedisCache.Set_, RedisCache.SetWithTTL, RedisCache.Get,
    RedisCache.Delete, RedisCache.Exists, RedisCache.GetTTL,
    RedisCache.Increment, RedisCache.IncrementWithTTL, RedisCache_closed.
  cbn [RedisCache.items RedisCache.ttl RedisCache.with_items
       RedisCache.ticking RedisCache.stopClosed snd].
  repeat split.
  - destruct (RedisCache.items c !! key) as [item|]; [|reflexivity].
    destruct (ExpiresAt item <? now); [reflexivity|].
    destruct (store_through d (Value item)); reflexivity.
  - destruct (RedisCache.items c !! key) as [item|]; [|reflexivity].
    destruct (ExpiresAt item <? now); reflexivity.
  - destruct (RedisCache.items c !! key) as [item|]; reflexivity.
Qed.

(** C4 (amended). The first [Close] of a cache returns without error, stops
    the ticker and closes [stopCh]; it leaves every item in place, and from
    then on [Set], [SetWithTTL], [Get], [Delete], [Exists], [GetTTL],
    [Increment] and [IncrementWithTTL] answer as they would have on the open
    cache (the package has no error for a closed cache), while the sweeper
    no longer deletes anything. *)
Theorem Close_leaves_the_cache_usable (mc : MemoryCache.t) (rc : RedisCache.t) :
  MemoryCache.stopClosed mc = false ->
  RedisCache.stopClosed rc = false ->
  (Close mc = Returns (None, MemoryCache_closed mc) /\
   unaffected MemoryCache_closed mc /\
   forall now, MemoryCache.cleanupExpired (MemoryCache_closed mc) now
               = MemoryCache_closed mc) /\
  (Close rc = Returns (None, RedisCache_closed rc) /\
   unaffected RedisCache_closed rc /\
   forall now, RedisCache.cleanupExpired (RedisCache_closed rc) now
               = RedisCache_closed rc).
Proof.
  intros Hm Hr. split; (split; [|split]).
  - cbn [Close MemoryCache_ops]. unfold MemoryCache.Close. now rewrite Hm.
  - apply MemoryCache_ops_ignore_close.
  - reflexivity.
  - cbn [Close RedisCache_ops]. unfold RedisCache.Close. now rewrite Hr.
  - apply RedisCache_ops_ignore_close.
  - reflexivity.
Qed.

Lemma Close_leaves_the_cache_usable_witness :
  let mc := MemoryCache.NewMemoryCache 1000 (5 * Minute) in
  let rc := RedisCache.NewRedisCache (5 * Minute) in
  (Close mc = Returns (None, MemoryCache_closed mc) /\
   unaffected MemoryCache_closed mc /\
   forall now, MemoryCache.cleanupExpired (MemoryCache_closed mc) now
               = MemoryCache_closed mc) /\
  (Close rc = Returns (None, RedisCache_closed rc) /\
   unaffected RedisCache_closed rc /\
   forall now, RedisCache.cleanupExpired (RedisCache_closed rc) now
               = RedisCache_closed rc).
Proof.
  apply (Close_leaves_the_cache_usable
           (MemoryCache.NewMemoryCache 1000 (5 * Minute))
           (RedisCache.NewRedisCache (5 * Minute))); reflexivity.
Defined.

(** C4, as first stated, fails on both counts: after [Close] a [Set] and a
    [Get] of the same key succeed and hand the value back, and a second
    [Close] closes a closed channel, which panics. *)
Lemma closed_cache_still_serves :
  let c0 := MemoryCache.NewMemoryCache 1000 (5 * Minute) in
  exists c1 c2 c3,
    Close c0 = Returns (None, c1) /\
    Set_ c1 "k" (AInt64 7) 0 = (None, c2) /\
    Get c2 "k" (DestAny ANil) 1 = Returns (None, DestAny (AInt64 7), c3) /\
    Close c1 = Panics "close of closed channel".
Proof.
  do 3 eexists. cbn [Close Set_ Get MemoryCache_ops].
  repeat split; vm_compute; reflexivity.
Qed.

End CacheSpec.

(** ** The inference client *)

Module MLSpec.
Import Models ML.

(** An attempt fails when [executeAnalysisRequest] returns an error, of
    whatever kind. *)
Definition failed (service : Z -> reply) (now : Z) (k : Z) : Prop :=
  exists e, executeAnalysisRequest (service k) now = inl e.

(** The trace of [m] attempts in a row, from attempt [a] on: a pause of
    [RetryDelay * attempt] before every attempt but attempt 0. *)
Fixpoint schedule (cfg : ClientConfig) (m : nat) (a : Z) : list event :=
  match m with
  | O => []
  | S m' =>
      (if 0 <? a then [Sleep (wrap_int (RetryDelay cfg * a))] else [])
      ++ Post a :: schedule cfg m' (a + 1)
  end.

Lemma posts_app t1 t2 : posts (t1 ++ t2) = posts t1 ++ posts t2.
Proof. unfold posts. apply omap_app. Qed.

Lemma posts_schedule cfg m : forall a, length (posts (schedule cfg m a)) = m.
Proof.
  induction m as [|m IH]; intros a; [reflexivity|].
  cbn [schedule]. rewrite posts_app.
  destruct (0 <? a); cbn; now rewrite IH.
Qed.

Lemma attempts_spec cfg service now left : forall a lastErr,
  exists m : nat,
    (m <= left)%nat /\
    snd (attempts cfg service now left a lastErr) = schedule cfg m a /\
    (forall k, a <= k < a + Z.of_nat m - 1 -> failed service now k) /\
    match fst (attempts cfg service now left a lastErr) with
    | inr result =>
        (0 < m)%nat /\
        executeAnalysisRequest (service (a + Z.of_nat m - 1)) now = inr result
    | inl (ErrAttempts n _) =>
        m = left /\ n = MaxRetries cfg /\
        forall k, a <= k < a + Z.of_nat left -> failed service now k
    end.
Proof.
  induction left as [|left IH]; intros a lastErr.
  - exists 0%nat. cbn. repeat split; intros; lia.
  - cbn [attempts].
    destruct (executeAnalysisRequest (service a) now) as [err|result] eqn:Hx.
    + destruct (IH (a + 1) (Some err)) as (m & Hle & Htr & Hbefore & Hres).
      destruct (attempts cfg service now left (a + 1) (Some err)) as [res trace].
      cbn [fst snd] in *. exists (S m). split; [lia|]. split.
      { cbn [schedule]. now rewrite Htr. }
      assert (Hfirst : failed service now a) by (now exists err).
      split.
      { intros k Hk. destruct (Z.eq_dec k a) as [->|Hne]; [exact Hfirst|].
        apply Hbefore. lia. }
      destruct res as [[n last]|result].
      * destruct Hres as (-> & -> & Hall). repeat split.
        intros k Hk. destruct (Z.eq_dec k a) as [->|Hne]; [exact Hfirst|].
        apply Hall. lia.
      * destruct Hres as [Hpos Hlast]. split; [lia|].
        replace (a + Z.of_nat (S m) - 1) with (a + 1 + Z.of_nat m - 1) by lia.
        exact Hlast.
    + exists 1%nat. cbn [fst snd schedule]. split; [lia|]. split; [reflexivity|].
      split; [intros; lia|]. split; [lia|].
      replace (a + Z.of_nat 1 - 1) with a by lia. exact Hx.
Qed.

(** C2 (amended). [AnalyzeFrame] posts attempt after attempt until one
    succeeds or [MaxRetries + 1] of them have failed (4 with the default
    configuration): an attempt that fails is followed by the next one
    whatever made it fail, be it the transport, a status other than 200 or a
    payload that does not decode.  Before attempt [k > 0] it sleeps
    [RetryDelay * k]. *)
Theorem AnalyzeFrame_retries_every_failure cfg service now :
  exists m : nat,
    (m <= Z.to_nat (MaxRetries cfg + 1))%nat /\
    snd (AnalyzeFrame cfg service now) = schedule cfg m 0 /\
    length (posts (snd (AnalyzeFrame cfg service now))) = m /\
    (forall k, 0 <= k < Z.of_nat m - 1 -> failed service now k) /\
    match fst (AnalyzeFrame cfg service now) with
    | inr result =>
        (0 < m)%nat /\
        executeAnalysisRequest (service (Z.of_nat m - 1)) now = inr result
    | inl (ErrAttempts n _) =>
        m = Z.to_nat (MaxRetries cfg + 1) /\ n = MaxRetries cfg /\
        forall k, 0 <= k < Z.of_nat m -> failed service now k
    end.
Proof.
  unfold AnalyzeFrame.
  destruct (attempts_spec cfg service now (Z.to_nat (MaxRetries cfg + 1)) 0 None)
    as (m & Hle & Htr & Hbefore & Hres).
  exists m. split; [exact Hle|]. split; [exact Htr|].
  split; [rewrite Htr; apply posts_schedule|].
  split; [intros k Hk; apply Hbefore; lia|].
  destruct (fst (attempts cfg service now _ 0 None)) as [[n last]|result].
  - destruct Hres as (-> & -> & Hall). repeat split. exact Hall.
  - exact Hres.
Qed.

(** The default configuration allows four posts. *)
Example default_allows_four_posts :
  Z.to_nat (MaxRetries default_config + 1) = 4%nat.
Proof. reflexivity. Qed.

Definition good_response : AnalysisResponse :=
  mkAnalysisResponse 90 90 90 90 [] []
    (mkSceneAnalysisResult "highway" 2 "clear" "day" "light" "dry" 80 1%Q)
    (12 # 1)%Q "v1".

(** C2, as first stated, fails: a payload that does not decode is retried
    like any other failure.  The service answers the first post with status
    200 and a broken body, the second with a well-formed one: the client
    sleeps one [RetryDelay], posts again and returns the second analysis. *)
Lemma malformed_payload_is_retried :
  let service := fun k : Z =>
    if k =? 0 then Response 200 "{" Malformed
    else Response 200 "{...}" (Decoded good_response) in
  executeAnalysisRequest (service 0) 0 = inl ErrDecode /\
  AnalyzeFrame default_config service 0
    = (inr (convertMLResponse good_response 0), [Post 0; Sleep Second; Post 1]).
Proof. vm_compute. split; reflexivity. Qed.

(** A status of the 2xx family other than 200 is a failure too. *)
Example status_201_is_a_failure :
  executeAnalysisRequest (Response 201 "" (Decoded good_response)) 0
  = inl (ErrStatus 201 "").
Proof. reflexivity. Qed.

End MLSpec.

(** ** The work queue *)

Module QueueSpec.
Import Models Queue.

Definition frame (n : Z) : FrameRequest := mkFrameRequest [] n "rider-1" [].

Definition answer (item : QueueItem) : handled :=
  mkHandled [mkResult (Some zero_AnalysisResult) None] None.

(** A running queue of capacity 2 with one worker: the worker is handling
    item A (channel 1) while item B (channel 2) waits in the buffer. *)
Definition itemA : QueueItem := mkQueueItem (frame 1) 1 0 1.
Definition itemB : QueueItem := mkQueueItem (frame 2) 2 0 1.

Definition loaded : ProcessingQueue :=
  mkQueue [itemB] 2 false 1 [Busy itemA] false true.

(** After [Shutdown] nothing more is accepted. *)
Lemma Shutdown_stops_intake f q s moves item :
  let '(_, q', _) := Shutdown f q s moves in
  fst (Enqueue q' item) = false.
Proof.
  unfold Shutdown. destruct (isRunning q) eqn:Hr; cbn [negb].
  - assert (Hinv : forall moves st,
              isRunning (fst st) = false ->
              isRunning (fst (fold_left (act f) moves st)) = false).
    { clear -f. induction moves as [|a moves IH]; intros st Hst; [exact Hst|].
      cbn [fold_left]. apply IH. destruct st as [q s]. cbn [fst] in *.
      destruct a as [w|w|w]; cbn [act].
      - destruct (pool q !! w) as [[| |]|]; try exact Hst.
        destruct (items q); exact Hst.
      - destruct (pool q !! w) as [[|it|]|]; try exact Hst.
        destruct (1 <? _)%nat; exact Hst.
      - destruct (pool q !! w) as [[| |]|]; try exact Hst.
        destruct (shutdownClosed q); exact Hst. }
    specialize (Hinv moves
      (mkQueue (items q) (capacity q) (itemsClosed q) (workers q)
               (pool q) true false, s) eq_refl).
    destruct (fold_left (act f) moves _) as [q2 s2]. cbn [fst] in Hinv.
    unfold Enqueue. cbn [isRunning]. now rewrite Hinv.
  - unfold Enqueue. now rewrite Hr.
Qed.

(** The error of [Shutdown] tells whether the workers had all returned when
    the wait ended. *)
Lemma Shutdown_error_iff_workers_left f q s moves :
  isRunning q = true ->
  let '(err, q', _) := Shutdown f q s moves in
  itemsClosed q' = true /\
  (err = Some ErrShutdownTimeout <-> all_exited q' = false) /\
  (err = None <-> all_exited q' = true).
Proof.
  intros Hr. unfold Shutdown. rewrite Hr. cbn [negb].
  destruct (fold_left (act f) moves _) as [q2 s2].
  cbn [itemsClosed]. unfold all_exited. cbn [pool].
  destruct (forallb _ (pool q2)); repeat split; intros; congruence.
Qed.

(** [Shutdown] itself sends nothing: what reaches the sinks during the wait
    comes from the handlers of the workers. *)
Lemma Shutdown_sends_nothing f q s :
  snd (Shutdown f q s []) = s.
Proof. unfold Shutdown. destruct (isRunning q); reflexivity. Qed.

(** *** No answer for the items left behind *)

(** The channels of the items that workers are handling. *)
Definition busy_chans (p : list worker_state) : list nat :=
  omap (fun w => match w with Busy item => Some (ResultChan item) | _ => None end) p.

(** Every item, waiting or in flight, has a channel of its own:
    [ProcessFrame] makes a new one for each item. *)
Definition own_channels (q : ProcessingQueue) : Prop :=
  NoDup (List.map ResultChan (items q) ++ busy_chans (pool q)).

Lemma busy_chans_insert p w old new :
  p !! w = Some old ->
  exists A B,
    busy_chans p = A ++ busy_chans [old] ++ B /\
    busy_chans (<[w := new]> p) = A ++ busy_chans [new] ++ B.
Proof.
  intros Hw.
  exists (busy_chans (take w p)), (busy_chans (drop (S w) p)). split.
  - rewrite <- (take_drop_middle p w old Hw) at 1.
    unfold busy_chans. rewrite omap_app. f_equal.
    change (old :: drop (S w) p) with ([old] ++ drop (S w) p).
    now rewrite omap_app.
  - rewrite insert_take_drop by (eapply lookup_lt_Some; eassumption).
    unfold busy_chans. rewrite omap_app. f_equal.
    change (new :: drop (S w) p) with ([new] ++ drop (S w) p).
    now rewrite omap_app.
Qed.

Lemma buffered_deliver_other s ch ch' rs :
  ch <> ch' -> buffered (deliver s ch rs) ch' = buffered s ch'.
Proof.
  intros Hne. unfold deliver, buffered, sinks in *.
  destruct rs; [reflexivity|]. now rewrite lookup_insert_ne.
Qed.

Lemma buffered_try_send_other s ch ch' r :
  ch <> ch' -> buffered (try_send s ch r) ch' = buffered s ch'.
Proof.
  intros Hne. unfold try_send.
  destruct (buffered s ch); [|reflexivity].
  unfold buffered, sinks in *. now rewrite lookup_insert_ne.
Qed.

Lemma middle_to_front (x : nat) (l1 l2 l3 : list nat) :
  Permutation (x :: l1 ++ l2 ++ l3) (l1 ++ l2 ++ x :: l3).
Proof.
  rewrite !app_assoc. apply Permutation_middle.
Qed.

(** One move of a worker keeps the channels apart, adds no item to the
    buffer, and writes on no channel of an item that is still waiting. *)
Lemma act_waiting f q s a :
  own_channels q ->
  own_channels (fst (act f (q, s) a)) /\
  forall item, In item (items (fst (act f (q, s) a))) ->
    In item (items q) /\
    buffered (snd (act f (q, s) a)) (ResultChan item) = buffered s (ResultChan item).
Proof.
  unfold own_channels. intros Hown.
  destruct a as [w|w|w]; cbn [act].
  - (* Take *)
    destruct (pool q !! w) as [[|it|]|] eqn:Hw; try solve [cbn; auto].
    destruct (items q) as [|x rest] eqn:Hi; [cbn; rewrite Hi; auto|].
    cbn [fst snd items pool with_pool with_items].
    destruct (busy_chans_insert (pool q) w Idle (Busy x) Hw) as (A & B & HA & HB).
    rewrite HB. rewrite HA in Hown. cbn in Hown |- *. split.
    + now rewrite <- middle_to_front.
    + intros item Hin. split; [now right | reflexivity].
  - (* Finish *)
    destruct (pool q !! w) as [[|it|]|] eqn:Hw; try solve [cbn; auto].
    destruct (1 <? length (buffered s (ResultChan it) ++ sent (f it)))%nat;
      [cbn; auto|].
    cbn [fst snd items pool with_pool].
    destruct (busy_chans_insert (pool q) w (Busy it) Idle Hw) as (A & B & HA & HB).
    rewrite HB. rewrite HA in Hown. cbn in Hown |- *.
    rewrite <- middle_to_front in Hown.
    apply NoDup_cons in Hown as [Hfresh Hown]. split; [exact Hown|].
    intros item Hin. split; [exact Hin|].
    assert (Hne : ResultChan it <> ResultChan item).
    { intros Heq. apply Hfresh. rewrite Heq.
      apply elem_of_app. left. apply list_elem_of_In, in_map, Hin. }
    destruct (panic (f it)).
    + rewrite buffered_try_send_other by exact Hne.
      now apply buffered_deliver_other.
    + now apply buffered_deliver_other.
  - (* Leave *)
    destruct (pool q !! w) as [[|it|]|] eqn:Hw; try solve [cbn; auto].
    destruct (shutdownClosed q); [|cbn; auto].
    cbn [fst snd items pool with_pool].
    destruct (busy_chans_insert (pool q) w Idle Exited Hw) as (A & B & HA & HB).
    rewrite HB. rewrite HA in Hown. cbn in Hown |- *. auto.
Qed.

Lemma moves_waiting f moves : forall q s,
  own_channels q ->
  forall item, In item (items (fst (fold_left (act f) moves (q, s)))) ->
    In item (items q) /\
    buffered (snd (fold_left (act f) moves (q, s))) (ResultChan item)
      = buffered s (ResultChan item).
Proof.
  induction moves as [|a moves IH]; intros q s Hown item Hin; [now split|].
  cbn [fold_left] in *.
  destruct (act_waiting f q s a Hown) as [Hown1 Hstep].
  destruct (act f (q, s) a) as [q1 s1]. cbn [fst snd] in *.
  destruct (IH q1 s1 Hown1 item Hin) as [Hin1 Hbuf1].
  destruct (Hstep item Hin1) as [Hin0 Hbuf0].
  split; [exact Hin0 | congruence].
Qed.

(** Whatever the workers do while [Shutdown] waits, an item that is still
    in the buffer when [Shutdown] returns was waiting when it was called,
    and nothing has been written on its channel in between. *)
Lemma Shutdown_answers_no_waiting_item f q s moves :
  own_channels q ->
  let '(_, q', s') := Shutdown f q s moves in
  forall item, In item (items q') ->
    In item (items q) /\ buffered s' (ResultChan item) = buffered s (ResultChan item).
Proof.
  intros Hown. unfold Shutdown. destruct (isRunning q); cbn [negb]; [|now split].
  pose proof (moves_waiting f moves
    (mkQueue (items q) (capacity q) (itemsClosed q) (workers q) (pool q) true false)
    s Hown) as Hw.
  destruct (fold_left (act f) moves _) as [q2 s2]. cbn [fst snd items] in *.
  exact Hw.
Qed.

(** C3. [Shutdown] on the loaded queue.  The worker finishes item A and
    returns: [Shutdown] reports no error, the channel is closed with item B
    still in its buffer, and the sink of B has received nothing.  When the
    timer fires first the error is the timeout and B is left in the same
    way.  [DrainQueue], which answers a waiting item with the cancellation,
    is never called by [Shutdown]. *)
Theorem Shutdown_leaves_pending_items_unanswered :
  (let '(err, q', s') := Shutdown answer loaded ∅ [Finish 0%nat; Leave 0%nat] in
   err = None /\ itemsClosed q' = true /\ items q' = [itemB] /\
   buffered s' (ResultChan itemA) = [mkResult (Some zero_AnalysisResult) None] /\
   buffered s' (ResultChan itemB) = []) /\
  (let '(err, q', s') := Shutdown answer loaded ∅ [] in
   err = Some ErrShutdownTimeout /\ itemsClosed q' = true /\
   items q' = [itemB] /\ buffered s' (ResultChan itemB) = []) /\
  (exists q' s', DrainQueue loaded ∅ = Some (1, q', s') /\
     items q' = [] /\ buffered s' (ResultChan itemB) = [cancellation]).
Proof.
  split; [|split].
  - vm_compute. repeat split.
  - vm_compute. repeat split.
  - eexists _, _. split; [reflexivity|]. vm_compute. repeat split.
Qed.

End QueueSpec.

(** ** The frame processor *)

Module ProcessorSpec.
Import Models Cache Queue Processor CacheSpec.

(** *** Feedback *)

(** The rules of the specification, one line each: condition, type, message
    and the score the item carries.  The feedback they describe is the list
    of the items whose condition holds, in the order of the table. *)
Definition rule_table (posture lane speed overall : Z)
  : list (bool * string * string * Z) :=
  [ ((posture <? 70)%Z, "warning",
     "Improve your riding posture - keep your back straight and relax your shoulders",
     posture);
    ((85 <? posture)%Z, "success", "Excellent riding posture!", posture);
    ((lane <? 60)%Z, "error", "Maintain better lane position - you're drifting", lane);
    ((speed <? 65)%Z, "warning", "Adjust your speed for current road conditions", speed);
    ((80 <? overall)%Z, "success", "Great riding! Keep up the good work", overall)
  ]%string.

Definition rule_items (posture lane speed overall : Z) : list Feedback :=
  List.map (fun r => mkFeedback (snd (fst (fst r))) (snd (fst r)) (snd r) "" 0)
           (List.filter (fun r => fst (fst (fst r)))
                        (rule_table posture lane speed overall)).

(** [generateFeedback] reads nothing but the four scores and yields the
    items of the table; its [else if] on the posture loses nothing, the two
    conditions exclude each other. *)
Lemma generateFeedback_rules a :
  generateFeedback a
  = rule_items (PostureScore a) (LaneScore a) (SpeedScore a) (OverallScore a).
Proof.
  unfold generateFeedback, rule_items, rule_table. cbn [List.filter fst snd].
  destruct (PostureScore a <? 70) eqn:Hp.
  - apply Z.ltb_lt in Hp.
    replace (85 <? PostureScore a) with false by (symmetry; apply Z.ltb_ge; lia).
    destruct (LaneScore a <? 60), (SpeedScore a <? 65), (80 <? OverallScore a);
      reflexivity.
  - destruct (85 <? PostureScore a), (LaneScore a <? 60),
      (SpeedScore a <? 65), (80 <? OverallScore a); reflexivity.
Qed.

(** *** A call that a worker serves *)

Lemma executeAnalysisRequest_ok r now a :
  ML.executeAnalysisRequest r now = inr a ->
  exists raw mlResp,
    r = ML.Response 200 raw (ML.Decoded mlResp) /\ a = ML.convertMLResponse mlResp now.
Proof.
  destruct r as [reason|status raw body]; cbn; [discriminate|].
  destruct (status =? ML.StatusOK) eqn:Hs; cbn; [|discriminate].
  apply Z.eqb_eq in Hs. destruct body as [|mlResp]; [discriminate|].
  intros [= <-]. exists raw, mlResp. now rewrite Hs.
Qed.

Lemma AnalyzeFrame_ok cfg service now a :
  fst (ML.AnalyzeFrame cfg service now) = inr a ->
  exists k raw mlResp,
    service k = ML.Response 200 raw (ML.Decoded mlResp) /\
    a = ML.convertMLResponse mlResp now.
Proof.
  intros Ha. unfold ML.AnalyzeFrame in Ha.
  destruct (MLSpec.attempts_spec cfg service now
              (Z.to_nat (ML.MaxRetries cfg + 1)) 0 None) as (m & _ & _ & _ & Hres).
  rewrite Ha in Hres. destruct Hres as [_ Hx].
  destruct (executeAnalysisRequest_ok _ _ _ Hx) as (raw & mlResp & Hr & Hc).
  now exists (0 + Z.of_nat m - 1), raw, mlResp.
Qed.

Section Generic.
Context {C : Type} `{CacheOps C}.

Lemma dispatch_served (fp : FrameProcessor C) request key now w r :
  answer (dispatch fp request key now w) = Returns (inr r) ->
  asked (dispatch fp request key now w) <> [] ->
  exists a,
    fst (ML.AnalyzeFrame (mlClient fp) (service w) (finish w)) = inr a /\
    r = with_Feedback a (generateFeedback a).
Proof.
  unfold dispatch.
  destruct (if SkipSimilarFrames (config fp) then _ else _) as [[[|] c1]|reason];
    cbn [answer asked]; try congruence.
  destruct (Enqueue (queue fp) _) as [accepted q1].
  destruct accepted; cbn [negb answer asked]; [|congruence].
  destruct (served w); cbn [negb answer asked]; [|congruence].
  unfold processFrame.
  destruct (ML.AnalyzeFrame (mlClient fp) (service w) (finish w)) as [[err|a] trace];
    cbn [Error Analysis answer asked fst]; [congruence|].
  intros [= <-] _. exists a. split; reflexivity.
Qed.

Lemma ProcessFrame_served (fp : FrameProcessor C) request now w r :
  answer (ProcessFrame fp request now w) = Returns (inr r) ->
  asked (ProcessFrame fp request now w) <> [] ->
  exists a,
    fst (ML.AnalyzeFrame (mlClient fp) (service w) (finish w)) = inr a /\
    r = with_Feedback a (generateFeedback a).
Proof.
  unfold ProcessFrame. cbn [cache with_stats].
  destruct (cache fp) as [c|].
  - destruct (Get c _ _ now) as [[[[e|] d] c']|reason]; cbn [answer asked];
      try congruence.
    intros Ha Hb. exact (dispatch_served _ _ _ _ _ _ Ha Hb).
  - intros Ha Hb. exact (dispatch_served _ _ _ _ _ _ Ha Hb).
Qed.

End Generic.

(** C6 (amended). When [ProcessFrame] succeeds with an analysis that a
    worker obtained from the inference service, the four scores it returns
    are the ones of a reply of the service, passed on as they are (they are
    in [0,100] when the service keeps to that range), and the feedback is
    a function of these four scores alone: the items whose conditions hold
    (posture<70 warning, posture>85 success, lane<60 error, speed<65 warning,
    overall>80 success), in that order, each with its score. *)
Theorem served_result_scores_and_feedback
    {C : Type} `{CacheOps C} (fp : FrameProcessor C) request now w r :
  answer (ProcessFrame fp request now w) = Returns (inr r) ->
  asked (ProcessFrame fp request now w) <> [] ->
  (exists k raw mlResp,
     service w k = ML.Response 200 raw (ML.Decoded mlResp) /\
     OverallScore r = ML.rs_OverallScore mlResp /\
     PostureScore r = ML.rs_PostureScore mlResp /\
     LaneScore r = ML.rs_LaneScore mlResp /\
     SpeedScore r = ML.rs_SpeedScore mlResp) /\
  ar_Feedback r
  = rule_items (PostureScore r) (LaneScore r) (SpeedScore r) (OverallScore r).
Proof.
  intros Hans Hasked.
  destruct (ProcessFrame_served fp request now w r Hans Hasked) as (a & Ha & ->).
  destruct (AnalyzeFrame_ok _ _ _ _ Ha) as (k & raw & mlResp & Hk & ->).
  split.
  - exists k, raw, mlResp. repeat split; [exact Hk|..]; reflexivity.
  - cbn [with_Feedback ar_Feedback PostureScore LaneScore SpeedScore OverallScore].
    apply generateFeedback_rules.
Qed.

(** *** Concrete runs *)

Definition rider_frame : FrameRequest :=
  mkFrameRequest (list_byte_of_string "JPEG bytes of frame B") 0 "rider-1" [].

Definition frame_key (request : FrameRequest) : string :=
  GenerateCacheKey
    ["frame"; generateFrameHash (ImageData request); ClientID request]%string.

(** A service that scores every frame 90/90/90/90, and a worker that answers
    40 ms after the call. *)
Definition steady (now : Z) : world :=
  mkWorld (fun _ => ML.Response 200 "{...}" (ML.Decoded MLSpec.good_response))
          true (now + 40000000).

Definition fresh_on_memory : FrameProcessor MemoryCache.t :=
  NewFrameProcessor ML.default_config
    (Some (MemoryCache.NewMemoryCache 1000 (5 * Minute))) 0.

Definition fresh_on_redis : FrameProcessor RedisCache.t :=
  NewFrameProcessor ML.default_config
    (Some (RedisCache.NewRedisCache (5 * Minute))) 0.

(** What the first call for [rider_frame] returns. *)
Definition first_result : AnalysisResult :=
  complete (Some (ML.convertMLResponse MLSpec.good_response (finish (steady 0))))
           (finish (steady 0)).

Lemma served_result_scores_and_feedback_witness :
  (exists k raw mlResp,
     service (steady 0) k = ML.Response 200 raw (ML.Decoded mlResp) /\
     OverallScore first_result = ML.rs_OverallScore mlResp /\
     PostureScore first_result = ML.rs_PostureScore mlResp /\
     LaneScore first_result = ML.rs_LaneScore mlResp /\
     SpeedScore first_result = ML.rs_SpeedScore mlResp) /\
  ar_Feedback first_result
  = rule_items (PostureScore first_result) (LaneScore first_result)
               (SpeedScore first_result) (OverallScore first_result).
Proof.
  apply (served_result_scores_and_feedback
           fresh_on_memory rider_frame 0 (steady 0) first_result).
  - vm_compute. reflexivity.
  - vm_compute. discriminate.
Defined.

(** C6, as first stated, fails.  Nothing clamps the scores: a service that
    reports 150, -20, 300 and 101 gets them returned by a successful call.
    And a frame that was seen a moment ago from another client is answered
    with the fixed result 75/80/70/75 and one "info" item, where the rules
    give no item at all for these scores. *)
Lemma scores_unchecked_and_shortcut_feedback :
  let wild := ML.mkAnalysisResponse 150 (-20) 300 101 [] []
                (ML.mkSceneAnalysisResult "" 0 "" "" "" "" 0 0%Q) 0%Q "v1" in
  let w := mkWorld (fun _ => ML.Response 200 "{...}" (ML.Decoded wild)) true 1 in
  (exists r,
     answer (ProcessFrame fresh_on_memory rider_frame 0 w) = Returns (inr r) /\
     OverallScore r = 150 /\ PostureScore r = -20 /\
     LaneScore r = 300 /\ SpeedScore r = 101) /\
  (let first := ProcessFrame fresh_on_memory rider_frame 0 (steady 0) in
   let other := mkFrameRequest (ImageData rider_frame) 0 "rider-2" [] in
   exists r,
     answer (ProcessFrame (after first) other Second (steady Second))
       = Returns (inr r) /\
     ar_Feedback r
       = [mkFeedback "info" "Using cached result for similar frame" 75 "" 0] /\
     rule_items (PostureScore r) (LaneScore r) (SpeedScore r) (OverallScore r) = []).
Proof.
  split.
  - eexists. split; [vm_compute; reflexivity|]. repeat split.
  - eexists. split; [vm_compute; reflexivity|]. split; reflexivity.
Qed.

(** C1. The first call for a frame is served by a worker and its result
    [first_result] is stored under the key of the frame; a second call for
    the same bytes and client one second later hits the cache, asks nothing
    of the inference service, and returns the zero value of the result
    type, not [first_result]: [Get] was handed a pointer to an
    [AnalysisResult] and stored nothing through it. *)
Theorem cache_hit_returns_the_zero_result :
  let first := ProcessFrame fresh_on_redis rider_frame 0 (steady 0) in
  let second := ProcessFrame (after first) rider_frame Second (steady Second) in
  answer first = Returns (inr first_result) /\
  (exists c item,
     cache (after first) = Some c /\
     RedisCache.items c !! frame_key rider_frame = Some item /\
     Value item = AResult first_result /\
     ExpiresAt item = finish (steady 0) + 5 * Minute) /\
  answer second = Returns (inr zero_AnalysisResult) /\
  asked second = [] /\
  OverallScore first_result = 90 /\
  OverallScore zero_AnalysisResult = 0.
Proof.
  split; [vm_compute; reflexivity|]. split.
  - eexists _, _. split; [vm_compute; reflexivity|].
    split; [vm_compute; reflexivity|]. split; vm_compute; reflexivity.
  - split; [vm_compute; reflexivity|]. split; [vm_compute; reflexivity|].
    split; reflexivity.
Qed.

(** The same run on [MemoryCache]. *)
Example cache_hit_on_memory_cache :
  let first := ProcessFrame fresh_on_memory rider_frame 0 (steady 0) in
  let second := ProcessFrame (after first) rider_frame Second (steady Second) in
  answer first = Returns (inr first_result) /\
  answer second = Returns (inr zero_AnalysisResult) /\
  asked second = [].
Proof. vm_compute. repeat split. Qed.

(** *** What [Get] does with its destination *)

(** C9. [Get] on a key that is present and has not expired returns a nil
    error; it stores the value through [dest] when [dest] is a pointer to an
    [interface{}], and leaves the destination as it was for every other
    dynamic type.  The frame processor passes a pointer to an
    [AnalysisResult]: on a hit [ProcessFrame] succeeds with the zero
    result. *)
Theorem Get_stores_only_through_an_interface_pointer
    (mc : MemoryCache.t) (rc : RedisCache.t) key now im ir d :
  live (MemoryCache.items mc) key now im ->
  live (RedisCache.items rc) key now ir ->
  ((forall x, d = DestAny x ->
      exists c', Get mc key d now = Returns (None, DestAny (Value im), c')) /\
   (any_pointer d = false ->
      exists c', Get mc key d now = Returns (None, d, c'))) /\
  ((forall x, d = DestAny x ->
      Get rc key d now = Returns (None, DestAny (Value ir), rc)) /\
   (any_pointer d = false -> Get rc key d now = Returns (None, d, rc))) /\
  (forall (fp : FrameProcessor MemoryCache.t) request w,
      cache fp = Some mc -> frame_key request = key ->
      answer (ProcessFrame fp request now w) = Returns (inr zero_AnalysisResult)) /\
  (forall (fp : FrameProcessor RedisCache.t) request w,
      cache fp = Some rc -> frame_key request = key ->
      answer (ProcessFrame fp request now w) = Returns (inr zero_AnalysisResult)).
Proof.
  intros Hm Hr.
  split; [exact (MemoryCache_Get_live mc key now im d Hm)|].
  split; [exact (RedisCache_Get_live rc key now ir d Hr)|].
  split.
  - intros fp request w Hc Hk. unfold ProcessFrame. cbn [cache with_stats].
    rewrite Hc. fold (frame_key request). rewrite Hk.
    destruct (MemoryCache_Get_live mc key now im (DestResult zero_AnalysisResult) Hm)
      as [_ Hget].
    destruct (Hget eq_refl) as [c' Hc'].
    cbn [Get MemoryCache_ops]. now rewrite Hc'.
  - intros fp request w Hc Hk. unfold ProcessFrame. cbn [cache with_stats].
    rewrite Hc. fold (frame_key request). rewrite Hk.
    destruct (RedisCache_Get_live rc key now ir (DestResult zero_AnalysisResult) Hr)
      as [_ Hget].
    cbn [Get RedisCache_ops]. now rewrite (Hget eq_refl).
Qed.

Lemma Get_stores_only_through_an_interface_pointer_witness :
  let key := frame_key rider_frame in
  let item := mkItem (AResult first_result) (5 * Minute) 0 1 in
  let mc := MemoryCache.mk {[ key := item ]} 1000 (5 * Minute) true false in
  let rc := RedisCache.mk {[ key := item ]} (5 * Minute) true false in
  let d := DestResult zero_AnalysisResult in
  ((forall x, d = DestAny x ->
      exists c', Get mc key d Second = Returns (None, DestAny (Value item), c')) /\
   (any_pointer d = false ->
      exists c', Get mc key d Second = Returns (None, d, c'))) /\
  ((forall x, d = DestAny x ->
      Get rc key d Second = Returns (None, DestAny (Value item), rc)) /\
   (any_pointer d = false -> Get rc key d Second = Returns (None, d, rc))) /\
  (forall (fp : FrameProcessor MemoryCache.t) request w,
      cache fp = Some mc -> frame_key request = key ->
      answer (ProcessFrame fp request Second w) = Returns (inr zero_AnalysisResult)) /\
  (forall (fp : FrameProcessor RedisCache.t) request w,
      cache fp = Some rc -> frame_key request = key ->
      answer (ProcessFrame fp request Second w) = Returns (inr zero_AnalysisResult)).
Proof.
  apply (Get_stores_only_through_an_interface_pointer
           (MemoryCache.mk {[ frame_key rider_frame :=
                                mkItem (AResult first_result) (5 * Minute) 0 1 ]}
                           1000 (5 * Minute) true false)
           (RedisCache.mk {[ frame_key rider_frame :=
                               mkItem (AResult first_result) (5 * Minute) 0 1 ]}
                          (5 * Minute) true false)
           (frame_key rider_frame) Second
           (mkItem (AResult first_result) (5 * Minute) 0 1)
           (mkItem (AResult first_result) (5 * Minute) 0 1)
           (DestResult zero_AnalysisResult)).
  - split; [apply lookup_singleton_eq | reflexivity].
  - split; [apply lookup_singleton_eq | reflexivity].
Defined.

End ProcessorSpec.

(** ** Data URLs *)

Module HandlersSpec.
Import Base64 Handlers.

Lemma byte_val_range b : 0 <= byte_val b < 256.
Proof.
  unfold byte_val, MD5.byte_val.
  pose proof (Byte.to_N_bounded b) as Hb. lia.
Qed.

Lemma byte_of_val b k : byte_of (k * 256 + byte_val b) = b.
Proof.
  unfold byte_of, MD5.byte_of.
  pose proof (byte_val_range b) as Hr.
  replace ((k * 256 + byte_val b) mod 256) with (byte_val b).
  - unfold byte_val, MD5.byte_val. rewrite N2Z.id, Byte.of_to_N. reflexivity.
  - rewrite Z.add_comm, Z.mod_add by lia. symmetry. apply Z.mod_small. lia.
Qed.

(** The 64 characters of the alphabet decode to their index; none of them
    is a comma, a newline or the padding character. *)
Definition char_ok (k : nat) : bool :=
  let c := encode_char (Z.of_nat k) in
  match decode_char c with
  | Some n => n =? Z.of_nat k
  | None => false
  end
  && negb (is_newline c) && negb (Ascii.eqb c comma) && negb (Ascii.eqb c padChar).

Lemma alphabet_ok : forallb char_ok (seq 0 64) = true.
Proof. vm_compute. reflexivity. Qed.

Lemma encode_char_spec n :
  0 <= n < 64 ->
  decode_char (encode_char n) = Some n /\
  is_newline (encode_char n) = false /\
  Ascii.eqb (encode_char n) comma = false /\
  Ascii.eqb (encode_char n) padChar = false.
Proof.
  intros Hn.
  pose proof (proj1 (forallb_forall char_ok (seq 0 64)) alphabet_ok (Z.to_nat n)) as Hk.
  assert (Hin : In (Z.to_nat n) (seq 0 64)) by (apply in_seq; lia).
  specialize (Hk Hin). unfold char_ok in Hk.
  rewrite Z2Nat.id in Hk by lia.
  destruct (decode_char (encode_char n)) as [m|]; [|discriminate].
  destruct (is_newline (encode_char n)), (Ascii.eqb (encode_char n) comma),
    (Ascii.eqb (encode_char n) padChar), (m =? n) eqn:Hm;
    try discriminate.
  apply Z.eqb_eq in Hm. subst m. repeat split.
Qed.

Lemma pad_is_no_digit :
  decode_char padChar = None /\ is_newline padChar = false /\
  Ascii.eqb padChar comma = false.
Proof. repeat split. Qed.

(** Lists, three elements at a time. *)
Lemma triples_ind (A : Type) (P : list A -> Prop) :
  P [] -> (forall a, P [a]) -> (forall a b, P [a; b]) ->
  (forall a b c rest, P rest -> P (a :: b :: c :: rest)) ->
  forall l, P l.
Proof.
  intros H0 H1 H2 H3.
  assert (Hall : forall l, P l /\ (forall a, P (a :: l)) /\ (forall a b, P (a :: b :: l))).
  { induction l as [|x l (IH0 & IH1 & IH2)].
    - auto.
    - repeat split; auto. }
  intros l. apply Hall.
Qed.

Ltac euclid := Z.div_mod_to_equations; lia.

Lemma sextet_ranges v :
  0 <= v < 16777216 ->
  0 <= v / 262144 < 64 /\ 0 <= v / 4096 mod 64 < 64 /\
  0 <= v / 64 mod 64 < 64 /\ 0 <= v mod 64 < 64.
Proof. intros Hv. repeat split; euclid. Qed.

Lemma decode_quanta_encode : forall src,
  decode_quanta (EncodeToString src) = Some src.
Proof.
  destruct pad_is_no_digit as (Dp & _).
  induction src as [|a|a b|a b c rest IH] using triples_ind.
  - reflexivity.
  - cbn [EncodeToString decode_quanta].
    pose proof (byte_val_range a) as Ha.
    set (val := byte_val a * 65536) in *.
    destruct (sextet_ranges val ltac:(subst val; lia)) as (R1 & R2 & _).
    destruct (encode_char_spec _ R1) as (D1 & _).
    destruct (encode_char_spec _ R2) as (D2 & _).
    rewrite D1, D2, Dp, Ascii.eqb_refl. cbn [andb String.eqb].
    replace ((val / 262144 * 262144 + val / 4096 mod 64 * 4096) / 65536)
      with (0 * 256 + byte_val a) by (subst val; euclid).
    now rewrite byte_of_val.
  - cbn [EncodeToString decode_quanta].
    pose proof (byte_val_range a) as Ha. pose proof (byte_val_range b) as Hb.
    set (val := byte_val a * 65536 + byte_val b * 256) in *.
    destruct (sextet_ranges val ltac:(subst val; lia)) as (R1 & R2 & R3 & _).
    destruct (encode_char_spec _ R1) as (D1 & _).
    destruct (encode_char_spec _ R2) as (D2 & _).
    destruct (encode_char_spec _ R3) as (D3 & _).
    rewrite D1, D2, D3, Dp, Ascii.eqb_refl. cbn [andb String.eqb].
    set (val' := val / 262144 * 262144 + val / 4096 mod 64 * 4096
                 + val / 64 mod 64 * 64).
    replace (val' / 65536) with (0 * 256 + byte_val a)
      by (subst val' val; euclid).
    replace (val' / 256) with (byte_val a * 256 + byte_val b)
      by (subst val' val; euclid).
    now rewrite !byte_of_val.
  - cbn [EncodeToString decode_quanta].
    pose proof (byte_val_range a) as Ha. pose proof (byte_val_range b) as Hb.
    pose proof (byte_val_range c) as Hc.
    set (val := byte_val a * 65536 + byte_val b * 256 + byte_val c) in *.
    destruct (sextet_ranges val ltac:(subst val; lia)) as (R1 & R2 & R3 & R4).
    destruct (encode_char_spec _ R1) as (D1 & _).
    destruct (encode_char_spec _ R2) as (D2 & _).
    destruct (encode_char_spec _ R3) as (D3 & _).
    destruct (encode_char_spec _ R4) as (D4 & _).
    rewrite D1, D2, D3, D4, IH.
    set (val' := val / 262144 * 262144 + val / 4096 mod 64 * 4096
                 + val / 64 mod 64 * 64 + val mod 64).
    replace (val' / 65536) with (0 * 256 + byte_val a)
      by (subst val' val; euclid).
    replace (val' / 256) with (byte_val a * 256 + byte_val b)
      by (subst val' val; euclid).
    replace val' with ((byte_val a * 256 + byte_val b) * 256 + byte_val c)
      by (subst val' val; euclid).
    now rewrite !byte_of_val.
Qed.

(** The encoder writes no newline and no comma. *)
Lemma encode_plain : forall src,
  strip_newlines (EncodeToString src) = EncodeToString src /\
  has_comma (EncodeToString src) = false.
Proof.
  destruct pad_is_no_digit as (_ & Pn & Pc).
  induction src as [|a|a b|a b c rest [IHs IHc]] using triples_ind.
  - split; reflexivity.
  - cbn [EncodeToString strip_newlines has_comma].
    pose proof (byte_val_range a) as Ha.
    set (val := byte_val a * 65536) in *.
    destruct (sextet_ranges val ltac:(subst val; lia)) as (R1 & R2 & _).
    destruct (encode_char_spec _ R1) as (_ & N1 & C1 & _).
    destruct (encode_char_spec _ R2) as (_ & N2 & C2 & _).
    rewrite N1, N2, C1, C2, Pn, Pc. split; reflexivity.
  - cbn [EncodeToString strip_newlines has_comma].
    pose proof (byte_val_range a) as Ha. pose proof (byte_val_range b) as Hb.
    set (val := byte_val a * 65536 + byte_val b * 256) in *.
    destruct (sextet_ranges val ltac:(subst val; lia)) as (R1 & R2 & R3 & _).
    destruct (encode_char_spec _ R1) as (_ & N1 & C1 & _).
    destruct (encode_char_spec _ R2) as (_ & N2 & C2 & _).
    destruct (encode_char_spec _ R3) as (_ & N3 & C3 & _).
    rewrite N1, N2, N3, C1, C2, C3, Pn, Pc. split; reflexivity.
  - cbn [EncodeToString strip_newlines has_comma].
    pose proof (byte_val_range a) as Ha. pose proof (byte_val_range b) as Hb.
    pose proof (byte_val_range c) as Hc.
    set (val := byte_val a * 65536 + byte_val b * 256 + byte_val c) in *.
    destruct (sextet_ranges val ltac:(subst val; lia)) as (R1 & R2 & R3 & R4).
    destruct (encode_char_spec _ R1) as (_ & N1 & C1 & _).
    destruct (encode_char_spec _ R2) as (_ & N2 & C2 & _).
    destruct (encode_char_spec _ R3) as (_ & N3 & C3 & _).
    destruct (encode_char_spec _ R4) as (_ & N4 & C4 & _).
    rewrite N1, N2, N3, N4, C1, C2, C3, C4, IHs, IHc. split; reflexivity.
Qed.

Lemma DecodeString_EncodeToString src :
  DecodeString (EncodeToString src) = Some src.
Proof.
  unfold DecodeString. rewrite (proj1 (encode_plain src)).
  apply decode_quanta_encode.
Qed.

(** *** Splitting at the comma *)

Lemma Split_no_comma s : has_comma s = false -> Split s = [s].
Proof.
  induction s as [|c s IH]; [reflexivity|]. cbn [has_comma Split].
  destruct (Ascii.eqb c comma); [discriminate|]. cbn [orb].
  intros Hs. now rewrite (IH Hs).
Qed.

Lemma Split_at_comma m p :
  has_comma m = false ->
  Split (m ++ String comma p)%string = m :: Split p.
Proof.
  induction m as [|c m IH]; simpl.
  - reflexivity.
  - destruct (Ascii.eqb c comma); [discriminate|]. simpl.
    intros Hm. now rewrite (IH Hm).
Qed.

Lemma has_comma_at_comma m p : has_comma (m ++ String comma p)%string = true.
Proof.
  induction m as [|c m IH]; simpl.
  - reflexivity.
  - rewrite IH. apply orb_true_r.
Qed.


Lemma has_comma_count s : has_comma s = false <-> count_commas s = 0%nat.
Proof.
  induction s as [|c s IH]; [easy|]. cbn [has_comma count_commas].
  destruct (Ascii.eqb c comma); cbn [orb]; [easy|]. exact IH.
Qed.


Lemma extract_at_comma e m p :
  has_comma m = false -> has_comma p = false ->
  extract e (m ++ String comma p)%string =
  match DecodeString p with
  | Some imageData => inr imageData
  | None => inl CorruptInputError
  end.
Proof.
  intros Hm Hp. unfold extract.
  rewrite has_comma_at_comma, (Split_at_comma m p Hm), (Split_no_comma p Hp).
  reflexivity.
Qed.



(** Inputs that are turned down: no comma, two commas, a payload with a
    character outside the alphabet, a payload cut short. *)
Example rejected_inputs :
  WebSocketHandler_extractImageData "data:image/jpeg;base64" = inl ErrBadHandshake /\
  StreamHandler_extractImageData "data:image/jpeg,base64,TWFu" = inl ErrInvalidDataURL /\
  StreamHandler_extractImageData "data:image/jpeg;base64,TW*u" = inl CorruptInputError /\
  StreamHandler_extractImageData "data:image/jpeg;base64,TWF" = inl CorruptInputError.
Proof. vm_compute. repeat split. Qed.

End HandlersSpec.

(** ** More on the caches *)

Module CacheMore.
Import Models Cache CacheSpec.

(** *** Storing and reading back *)

(** X1. A value stored with [Set] or [SetWithTTL] is handed back by a [Get]
    through a pointer to an [interface{}], is reported by [Exists], and has
    the rest of its lifetime reported by [GetTTL], at every instant up to
    and including the expiry [now + ttl]; this holds for a key that was
    there before as for a new one. *)
Theorem stored_value_is_read_back
    (mc : MemoryCache.t) (rc : RedisCache.t) key v x (ttl now later : Z) :
  later <= now + ttl ->
  (let c := snd (MemoryCache.SetWithTTL mc key v ttl now) in
   (exists c', MemoryCache.Get c key (DestAny x) later = Returns (None, DestAny v, c')) /\
   MemoryCache.Exists c key later = (true, None) /\
   MemoryCache.GetTTL c key later = (now + ttl - later, None)) /\
  (let c := snd (RedisCache.SetWithTTL rc key v ttl now) in
   RedisCache.Get c key (DestAny x) later = Returns (None, DestAny v, c) /\
   RedisCache.Exists c key later = (true, None) /\
   RedisCache.GetTTL c key later = (now + ttl - later, None)) /\
  MemoryCache.Set_ mc key v now = MemoryCache.SetWithTTL mc key v (MemoryCache.ttl mc) now /\
  RedisCache.Set_ rc key v now = RedisCache.SetWithTTL rc key v (RedisCache.ttl rc) now.
Proof.
  intros Hlater.
  assert (He : (now + ttl <? later) = false) by (apply Z.ltb_ge; lia).
  split; [|split; [|split; reflexivity]].
  - unfold MemoryCache.SetWithTTL, MemoryCache.Get, MemoryCache.Exists,
      MemoryCache.GetTTL.
    cbn [snd MemoryCache.items MemoryCache.with_items].
    rewrite lookup_insert_eq. cbn [ExpiresAt Value]. rewrite He.
    split; [|split; reflexivity]. cbn [store_through]. eauto.
  - unfold RedisCache.SetWithTTL, RedisCache.Get, RedisCache.Exists,
      RedisCache.GetTTL.
    cbn [snd RedisCache.items RedisCache.with_items].
    rewrite lookup_insert_eq. cbn [ExpiresAt Value]. rewrite He.
    split; [|split; reflexivity]. reflexivity.
Qed.

Lemma stored_value_is_read_back_witness :
  let mc := MemoryCache.NewMemoryCache 1000 (5 * Minute) in
  let rc := RedisCache.NewRedisCache (5 * Minute) in
  let v := AString "seen" in
  (let c := snd (MemoryCache.SetWithTTL mc "k" v Minute 0) in
   (exists c', MemoryCache.Get c "k" (DestAny ANil) Second
               = Returns (None, DestAny v, c')) /\
   MemoryCache.Exists c "k" Second = (true, None) /\
   MemoryCache.GetTTL c "k" Second = (0 + Minute - Second, None)) /\
  (let c := snd (RedisCache.SetWithTTL rc "k" v Minute 0) in
   RedisCache.Get c "k" (DestAny ANil) Second = Returns (None, DestAny v, c) /\
   RedisCache.Exists c "k" Second = (true, None) /\
   RedisCache.GetTTL c "k" Second = (0 + Minute - Second, None)) /\
  MemoryCache.Set_ mc "k" v 0 = MemoryCache.SetWithTTL mc "k" v (MemoryCache.ttl mc) 0 /\
  RedisCache.Set_ rc "k" v 0 = RedisCache.SetWithTTL rc "k" v (RedisCache.ttl rc) 0.
Proof.
  apply (stored_value_is_read_back
           (MemoryCache.NewMemoryCache 1000 (5 * Minute))
           (RedisCache.NewRedisCache (5 * Minute))
           "k" (AString "seen") ANil Minute 0 Second).
  unfold Minute, Second. lia.
Defined.

(** X2. After the expiry the same entry is a miss for [Get], which also
    removes it from the map and leaves the destination alone, while
    [Exists] and [GetTTL] report it gone without touching the map. *)
Theorem expired_entry_is_a_miss
    (mc : MemoryCache.t) (rc : RedisCache.t) key item_m item_r d now :
  MemoryCache.items mc !! key = Some item_m -> ExpiresAt item_m < now ->
  RedisCache.items rc !! key = Some item_r -> ExpiresAt item_r < now ->
  (exists c',
     MemoryCache.Get mc key d now = Returns (Some ErrCacheMiss, d, c') /\
     MemoryCache.items c' !! key = None /\
     (forall k, k <> key -> MemoryCache.items c' !! k = MemoryCache.items mc !! k)) /\
  MemoryCache.Exists mc key now = (false, None) /\
  MemoryCache.GetTTL mc key now = (0, Some ErrCacheMiss) /\
  (exists c',
     RedisCache.Get rc key d now = Returns (Some ErrCacheMiss, d, c') /\
     RedisCache.items c' !! key = None /\
     (forall k, k <> key -> RedisCache.items c' !! k = RedisCache.items rc !! k)) /\
  RedisCache.Exists rc key now = (false, None) /\
  RedisCache.GetTTL rc key now = (0, Some ErrCacheMiss).
Proof.
  intros Hm Hem Hr Her.
  apply Z.ltb_lt in Hem, Her.
  unfold MemoryCache.Get, MemoryCache.Exists, MemoryCache.GetTTL,
    RedisCache.Get, RedisCache.Exists, RedisCache.GetTTL.
  rewrite Hm, Hr, Hem, Her. repeat split.
  - eexists. split; [reflexivity|]. cbn. split; [apply lookup_delete_eq|].
    intros k Hk. now apply lookup_delete_ne.
  - eexists. split; [reflexivity|]. cbn. split; [apply lookup_delete_eq|].
    intros k Hk. now apply lookup_delete_ne.
Qed.

Lemma expired_entry_is_a_miss_witness :
  let item := mkItem (AInt64 7) 10 0 1 in
  let mc := MemoryCache.mk {[ "k" := item ]} 1000 (5 * Minute) true false in
  let rc := RedisCache.mk {[ "k" := item ]} (5 * Minute) true false in
  let d := DestAny ANil in
  (exists c',
     MemoryCache.Get mc "k" d 11 = Returns (Some ErrCacheMiss, d, c') /\
     MemoryCache.items c' !! "k" = None /\
     (forall k, k <> "k" -> MemoryCache.items c' !! k = MemoryCache.items mc !! k)) /\
  MemoryCache.Exists mc "k" 11 = (false, None) /\
  MemoryCache.GetTTL mc "k" 11 = (0, Some ErrCacheMiss) /\
  (exists c',
     RedisCache.Get rc "k" d 11 = Returns (Some ErrCacheMiss, d, c') /\
     RedisCache.items c' !! "k" = None /\
     (forall k, k <> "k" -> RedisCache.items c' !! k = RedisCache.items rc !! k)) /\
  RedisCache.Exists rc "k" 11 = (false, None) /\
  RedisCache.GetTTL rc "k" 11 = (0, Some ErrCacheMiss).
Proof.
  apply (expired_entry_is_a_miss
           (MemoryCache.mk {[ "k" := mkItem (AInt64 7) 10 0 1 ]} 1000 (5 * Minute) true false)
           (RedisCache.mk {[ "k" := mkItem (AInt64 7) 10 0 1 ]} (5 * Minute) true false)
           "k" (mkItem (AInt64 7) 10 0 1) (mkItem (AInt64 7) 10 0 1)
           (DestAny ANil) 11).
  - reflexivity.
  - cbn. lia.
  - reflexivity.
  - cbn. lia.
Defined.

(** X3. [Delete] always succeeds, on a missing key too; afterwards the key
    is a miss for [Get], [Exists] and [GetTTL] at any instant, and every
    other key is as it was. *)
Theorem deleted_key_is_gone (mc : MemoryCache.t) (rc : RedisCache.t) key d now :
  (let '(err, c) := MemoryCache.Delete mc key in
   err = None /\
   MemoryCache.Get c key d now = Returns (Some ErrCacheMiss, d, c) /\
   MemoryCache.Exists c key now = (false, None) /\
   MemoryCache.GetTTL c key now = (0, Some ErrCacheMiss) /\
   forall k, k <> key -> MemoryCache.items c !! k = MemoryCache.items mc !! k) /\
  (let '(err, c) := RedisCache.Delete rc key in
   err = None /\
   RedisCache.Get c key d now = Returns (Some ErrCacheMiss, d, c) /\
   RedisCache.Exists c key now = (false, None) /\
   RedisCache.GetTTL c key now = (0, Some ErrCacheMiss) /\
   forall k, k <> key -> RedisCache.items c !! k = RedisCache.items rc !! k).
Proof.
  unfold MemoryCache.Delete, MemoryCache.Get, MemoryCache.Exists, MemoryCache.GetTTL,
    RedisCache.Delete, RedisCache.Get, RedisCache.Exists, RedisCache.GetTTL.
  cbn [MemoryCache.items MemoryCache.with_items RedisCache.items RedisCache.with_items].
  rewrite !lookup_delete_eq. repeat split; intros k Hk; now apply lookup_delete_ne.
Qed.

(** *** Eviction *)

Definition pick (acc : string * Z) (kv : string * CacheItem) : string * Z :=
  if (String.eqb (fst acc) "" || (LastUsed (snd kv) <? snd acc))%bool
  then (fst kv, LastUsed (snd kv))
  else acc.

Lemma evictLRU_unfold m :
  MemoryCache.evictLRU m =
  let oldest := fold_left pick (map_to_list m) (""%string, 0) in
  if String.eqb (fst oldest) "" then m else delete (fst oldest) m.
Proof. reflexivity. Qed.

(** The pass, once it holds a key: it ends on an entry of the list, or on the
    one it started from, whose [LastUsed] is the least. *)
Lemma pick_fold (l : list (string * CacheItem)) : forall k item,
  k <> ""%string ->
  Forall (fun kv => fst kv <> ""%string) l ->
  exists k' item',
    fold_left pick l (k, LastUsed item) = (k', LastUsed item') /\
    k' <> ""%string /\
    In (k', item') ((k, item) :: l) /\
    LastUsed item' <= LastUsed item /\
    Forall (fun kv => LastUsed item' <= LastUsed (snd kv)) l.
Proof.
  induction l as [|[k1 i1] l IH]; intros k item Hk Hl.
  - exists k, item. cbn. repeat split; auto; lia.
  - apply Forall_cons in Hl as [Hk1 Hl]. cbn [fst] in Hk1.
    cbn [fold_left].
    assert (Hstep : pick (k, LastUsed item) (k1, i1) =
                    if LastUsed i1 <? LastUsed item then (k1, LastUsed i1)
                    else (k, LastUsed item)).
    { unfold pick. cbn [fst snd]. apply String.eqb_neq in Hk. now rewrite Hk. }
    rewrite Hstep.
    destruct (LastUsed i1 <? LastUsed item) eqn:Hlt;
      [apply Z.ltb_lt in Hlt | apply Z.ltb_ge in Hlt].
    + destruct (IH k1 i1 Hk1 Hl) as (k' & item' & Hf & Hne & Hin & Hle & Hall).
      exists k', item'. split; [exact Hf|]. split; [exact Hne|].
      split; [|split; [lia|]].
      * destruct Hin as [Hin|Hin]; [right; left; exact Hin | right; right; exact Hin].
      * apply Forall_cons. split; [cbn; lia | exact Hall].
    + destruct (IH k item Hk Hl) as (k' & item' & Hf & Hne & Hin & Hle & Hall).
      exists k', item'. split; [exact Hf|]. split; [exact Hne|].
      split; [|split; [exact Hle|]].
      * destruct Hin as [Hin|Hin]; [left; exact Hin | right; right; exact Hin].
      * apply Forall_cons. split; [cbn; lia | exact Hall].
Qed.

Lemma evictLRU_picks_the_oldest (m : gmap string CacheItem) :
  m <> ∅ -> m !! ""%string = None ->
  exists k item,
    m !! k = Some item /\
    MemoryCache.evictLRU m = delete k m /\
    forall k' item', m !! k' = Some item' -> LastUsed item <= LastUsed item'.
Proof.
  intros Hne Hempty. rewrite evictLRU_unfold. cbv zeta.
  assert (Hkeys : Forall (fun kv => fst kv <> ""%string) (map_to_list m)).
  { apply Forall_forall. intros [k i] Hin. cbn.
    apply elem_of_map_to_list in Hin. intros ->. congruence. }
  destruct (map_to_list m) as [|[k0 i0] l] eqn:Hl.
  { apply map_to_list_empty_iff in Hl. contradiction. }
  apply Forall_cons in Hkeys as [Hk0 Hkeys]. cbn [fst] in Hk0.
  cbn [fold_left]. change (pick (""%string, 0) (k0, i0)) with (k0, LastUsed i0).
  destruct (pick_fold l k0 i0 Hk0 Hkeys) as (k & item & Hf & Hk & Hin & Hle & Hall).
  rewrite Hf. cbn [fst]. apply String.eqb_neq in Hk. rewrite Hk.
  assert (Hlook : m !! k = Some item).
  { apply elem_of_map_to_list. rewrite Hl. apply list_elem_of_In. exact Hin. }
  exists k, item. split; [exact Hlook|]. split; [reflexivity|].
  - intros k' item' Hk'. apply elem_of_map_to_list in Hk'. rewrite Hl in Hk'.
    apply list_elem_of_In in Hk'. destruct Hk' as [[= <- <-]|Hk']; [exact Hle|].
    rewrite Forall_forall in Hall.
    apply (Hall (k', item')). apply list_elem_of_In. exact Hk'.
Qed.

(** X4. On a map that is not empty and holds no entry under the empty
    string, [evictLRU] removes exactly one entry, and no entry of the map
    was used longer ago than the one it removes. *)
Theorem evictLRU_removes_the_oldest (m : gmap string CacheItem) :
  m <> ∅ -> m !! ""%string = None ->
  exists k item,
    m !! k = Some item /\
    MemoryCache.evictLRU m = delete k m /\
    size (MemoryCache.evictLRU m) = pred (size m) /\
    forall k' item', m !! k' = Some item' -> LastUsed item <= LastUsed item'.
Proof.
  intros Hne Hempty.
  destruct (evictLRU_picks_the_oldest m Hne Hempty) as (k & item & Hk & Hdel & Hold).
  exists k, item. split; [exact Hk|]. split; [exact Hdel|]. split; [|exact Hold].
  rewrite Hdel. apply map_size_delete_Some. eauto.
Qed.

Lemma evictLRU_removes_the_oldest_witness :
  let m : gmap string CacheItem :=
    {[ "a" := mkItem ANil 100 5 1; "b" := mkItem ANil 100 3 1 ]} in
  exists k item,
    m !! k = Some item /\
    MemoryCache.evictLRU m = delete k m /\
    size (MemoryCache.evictLRU m) = pred (size m) /\
    forall k' item', m !! k' = Some item' -> LastUsed item <= LastUsed item'.
Proof.
  apply (evictLRU_removes_the_oldest
           ({[ "a" := mkItem ANil 100 5 1; "b" := mkItem ANil 100 3 1 ]})).
  - intros H. apply (f_equal (fun m : gmap string CacheItem => m !! "a")) in H.
    vm_compute in H. discriminate H.
  - vm_compute. reflexivity.
Defined.

(** X5. The entry under the empty string is never evicted: the pass uses
    the empty string for "no candidate yet", and deletes nothing when it
    ends on it. *)
Theorem evictLRU_spares_the_empty_key (m : gmap string CacheItem) :
  MemoryCache.evictLRU m !! ""%string = m !! ""%string /\
  (size m <= S (size (MemoryCache.evictLRU m)))%nat.
Proof.
  rewrite evictLRU_unfold. cbv zeta.
  destruct (String.eqb (fst (fold_left pick (map_to_list m) (""%string, 0))) "") eqn:He.
  - split; [reflexivity | lia].
  - apply String.eqb_neq in He. split.
    + now apply lookup_delete_ne.
    + rewrite map_size_delete. destruct (m !! _); cbn; lia.
Qed.

(** X6. [Set] and [SetWithTTL] keep a [MemoryCache] within its bound: on a
    cache that holds at most [maxSize >= 1] entries, none of them under the
    empty string, the map holds at most [maxSize] entries afterwards, the
    new one among them. *)
Theorem Set_keeps_the_size_bound (c : MemoryCache.t) key v ttl now :
  1 <= MemoryCache.maxSize c ->
  Z.of_nat (size (MemoryCache.items c)) <= MemoryCache.maxSize c ->
  MemoryCache.items c !! ""%string = None ->
  let c1 := snd (MemoryCache.Set_ c key v now) in
  let c2 := snd (MemoryCache.SetWithTTL c key v ttl now) in
  Z.of_nat (size (MemoryCache.items c1)) <= MemoryCache.maxSize c /\
  Z.of_nat (size (MemoryCache.items c2)) <= MemoryCache.maxSize c /\
  is_Some (MemoryCache.items c1 !! key) /\ is_Some (MemoryCache.items c2 !! key).
Proof.
  intros Hmax Hsize Hempty.
  assert (Hroom : Z.of_nat (size (MemoryCache.make_room c)) < MemoryCache.maxSize c).
  { unfold MemoryCache.make_room.
    destruct (MemoryCache.maxSize c <=? Z.of_nat (size (MemoryCache.items c))) eqn:Hfull;
      [apply Z.leb_le in Hfull | apply Z.leb_gt in Hfull; lia].
    assert (Hne : MemoryCache.items c <> ∅).
    { apply map_size_non_empty_iff. lia. }
    destruct (evictLRU_picks_the_oldest (MemoryCache.items c) Hne Hempty)
      as (k & item & Hk & Hdel & _).
    rewrite Hdel, map_size_delete_Some by eauto. lia. }
  cbv zeta. unfold MemoryCache.Set_, MemoryCache.SetWithTTL.
  cbn [snd MemoryCache.items MemoryCache.with_items].
  rewrite !lookup_insert_eq, !map_size_insert.
  repeat split; eauto; destruct (MemoryCache.make_room c !! key); cbn; lia.
Qed.

Lemma Set_keeps_the_size_bound_witness :
  let c := MemoryCache.mk {[ "a" := mkItem ANil 100 5 1; "b" := mkItem ANil 100 3 1 ]}
                          2 (5 * Minute) true false in
  let c1 := snd (MemoryCache.Set_ c "c" ANil 7) in
  let c2 := snd (MemoryCache.SetWithTTL c "c" ANil Minute 7) in
  Z.of_nat (size (MemoryCache.items c1)) <= MemoryCache.maxSize c /\
  Z.of_nat (size (MemoryCache.items c2)) <= MemoryCache.maxSize c /\
  is_Some (MemoryCache.items c1 !! "c") /\ is_Some (MemoryCache.items c2 !! "c").
Proof.
  apply (Set_keeps_the_size_bound
           (MemoryCache.mk {[ "a" := mkItem ANil 100 5 1; "b" := mkItem ANil 100 3 1 ]}
                           2 (5 * Minute) true false) "c" ANil Minute 7).
  - cbn. lia.
  - vm_compute. discriminate.
  - vm_compute. reflexivity.
Defined.

(** *** The sweeper *)

(** X7. A tick of [cleanupExpired] leaves no entry that has expired, keeps
    every entry that has not, and cannot be seen through [Exists] or
    [GetTTL], at that instant or later. *)
Theorem sweep_is_invisible (mc : MemoryCache.t) (rc : RedisCache.t) key now later :
  now <= later ->
  MemoryCache.stopClosed mc = false -> RedisCache.stopClosed rc = false ->
  (let c := MemoryCache.cleanupExpired mc now in
   MemoryCache.Exists c key later = MemoryCache.Exists mc key later /\
   MemoryCache.GetTTL c key later = MemoryCache.GetTTL mc key later /\
   (forall item, MemoryCache.items c !! key = Some item <->
      MemoryCache.items mc !! key = Some item /\ now <= ExpiresAt item)) /\
  (let c := RedisCache.cleanupExpired rc now in
   RedisCache.Exists c key later = RedisCache.Exists rc key later /\
   RedisCache.GetTTL c key later = RedisCache.GetTTL rc key later /\
   (forall item, RedisCache.items c !! key = Some item <->
      RedisCache.items rc !! key = Some item /\ now <= ExpiresAt item)).
Proof.
  intros Hlater Hm Hr.
  assert (Hfilter : forall (m : gmap string CacheItem),
    filter (fun kv => negb (ExpiresAt (snd kv) <? now) = true) m !! key =
    match m !! key with
    | Some item => if ExpiresAt item <? now then None else Some item
    | None => None
    end).
  { intros m. destruct (m !! key) as [item|] eqn:Hl.
    - destruct (ExpiresAt item <? now) eqn:He.
      + apply map_lookup_filter_None. right. intros x Hx. cbn.
        rewrite Hl in Hx. injection Hx as <-. rewrite He. discriminate.
      + apply map_lookup_filter_Some. split; [exact Hl|]. cbn. now rewrite He.
    - apply map_lookup_filter_None. now left. }
  assert (Hobs : forall (m : gmap string CacheItem),
    let m' := filter (fun kv => negb (ExpiresAt (snd kv) <? now) = true) m in
    (match m' !! key with
     | Some item => if ExpiresAt item <? later then (false, @None error) else (true, None)
     | None => (false, None)
     end =
     match m !! key with
     | Some item => if ExpiresAt item <? later then (false, None) else (true, None)
     | None => (false, None)
     end) /\
    (match m' !! key with
     | Some item => if ExpiresAt item <? later then (0, Some ErrCacheMiss)
                    else (ExpiresAt item - later, @None error)
     | None => (0, Some ErrCacheMiss)
     end =
     match m !! key with
     | Some item => if ExpiresAt item <? later then (0, Some ErrCacheMiss)
                    else (ExpiresAt item - later, None)
     | None => (0, Some ErrCacheMiss)
     end) /\
    (forall item, m' !! key = Some item <-> m !! key = Some item /\ now <= ExpiresAt item)).
  { intros m m'. subst m'. rewrite Hfilter.
    destruct (m !! key) as [item|]; [|repeat split; try tauto; intros; try easy].
    destruct (ExpiresAt item <? now) eqn:He;
      [apply Z.ltb_lt in He | apply Z.ltb_ge in He].
    - replace (ExpiresAt item <? later) with true by (symmetry; apply Z.ltb_lt; lia).
      repeat split; try easy. intros [[= ->] Hge]. lia.
    - split; [reflexivity|]. split; [reflexivity|].
      intros item0. split.
      + intros [= <-]. split; [reflexivity | exact He].
      + now intros [-> _]. }
  split.
  - unfold MemoryCache.cleanupExpired, MemoryCache.Exists, MemoryCache.GetTTL.
    rewrite Hm. cbn [MemoryCache.items MemoryCache.with_items].
    apply Hobs.
  - unfold RedisCache.cleanupExpired, RedisCache.Exists, RedisCache.GetTTL.
    rewrite Hr. cbn [RedisCache.items RedisCache.with_items].
    apply Hobs.
Qed.

Lemma sweep_is_invisible_witness :
  let item := mkItem (AInt64 7) 10 0 1 in
  let mc := MemoryCache.mk {[ "k" := item ]} 1000 (5 * Minute) true false in
  let rc := RedisCache.mk {[ "k" := item ]} (5 * Minute) true false in
  (let c := MemoryCache.cleanupExpired mc 11 in
   MemoryCache.Exists c "k" 12 = MemoryCache.Exists mc "k" 12 /\
   MemoryCache.GetTTL c "k" 12 = MemoryCache.GetTTL mc "k" 12 /\
   (forall item, MemoryCache.items c !! "k" = Some item <->
      MemoryCache.items mc !! "k" = Some item /\ 11 <= ExpiresAt item)) /\
  (let c := RedisCache.cleanupExpired rc 11 in
   RedisCache.Exists c "k" 12 = RedisCache.Exists rc "k" 12 /\
   RedisCache.GetTTL c "k" 12 = RedisCache.GetTTL rc "k" 12 /\
   (forall item, RedisCache.items c !! "k" = Some item <->
      RedisCache.items rc !! "k" = Some item /\ 11 <= ExpiresAt item)).
Proof.
  apply (sweep_is_invisible
           (MemoryCache.mk {[ "k" := mkItem (AInt64 7) 10 0 1 ]} 1000 (5 * Minute) true false)
           (RedisCache.mk {[ "k" := mkItem (AInt64 7) 10 0 1 ]} (5 * Minute) true false)
           "k" 11 12).
  - lia.
  - reflexivity.
  - reflexivity.
Defined.

Fixpoint MemoryCache_count (c : MemoryCache.t) (key : string) (ts : list Z) : list Z :=
  match ts with
  | [] => []
  | t :: rest =>
      let '(n, _, c') := MemoryCache.Increment c key t in
      n :: MemoryCache_count c' key rest
  end.

Lemma MemoryCache_count_live ts : forall c key item n,
  MemoryCache.items c !! key = Some item -> Value item = AInt64 n ->
  0 <= n -> n + Z.of_nat (length ts) <= max_int ->
  Forall (fun t => t <= ExpiresAt item) ts ->
  MemoryCache_count c key ts = List.map (fun i => n + Z.of_nat i) (seq 1 (length ts)).
Proof.
  induction ts as [|t rest IH]; intros c key item n Hl Hv Hn Hmax Hts;
    [reflexivity|].
  apply Forall_cons in Hts as [Ht Hrest].
  cbn [MemoryCache_count length seq List.map]. unfold MemoryCache.Increment. rewrite Hl.
  replace (ExpiresAt item <? t) with false by (symmetry; apply Z.ltb_ge; lia).
  rewrite Hv. cbn [bump].
  rewrite wrap_int_id
    by (unfold is_int, min_int, max_int in *; cbn [length] in Hmax; lia).
  cbn zeta. f_equal.
  erewrite IH with (n := n + 1).
  - rewrite <- (seq_shift (length rest) 1), List.map_map.
    apply List.map_ext. intros i. lia.
  - cbn. apply lookup_insert_eq.
  - reflexivity.
  - lia.
  - cbn [length] in Hmax. lia.
  - exact Hrest.
Qed.

Fixpoint RedisCache_count (c : RedisCache.t) (key : string) (ts : list Z) : list Z :=
  match ts with
  | [] => []
  | t :: rest =>
      let '(n, _, c') := RedisCache.Increment c key t in
      n :: RedisCache_count c' key rest
  end.

Lemma RedisCache_count_live ts : forall c key item n,
  RedisCache.items c !! key = Some item -> Value item = AInt64 n ->
  0 <= n -> n + Z.of_nat (length ts) <= max_int ->
  Forall (fun t => t <= ExpiresAt item) ts ->
  RedisCache_count c key ts = List.map (fun i => n + Z.of_nat i) (seq 1 (length ts)).
Proof.
  induction ts as [|t rest IH]; intros c key item n Hl Hv Hn Hmax Hts;
    [reflexivity|].
  apply Forall_cons in Hts as [Ht Hrest].
  cbn [RedisCache_count length seq List.map]. unfold RedisCache.Increment. rewrite Hl.
  replace (ExpiresAt item <? t) with false by (symmetry; apply Z.ltb_ge; lia).
  rewrite Hv. cbn [bump].
  rewrite wrap_int_id
    by (unfold is_int, min_int, max_int in *; cbn [length] in Hmax; lia).
  cbn zeta. f_equal.
  erewrite IH with (n := n + 1).
  - rewrite <- (seq_shift (length rest) 1), List.map_map.
    apply List.map_ext. intros i. lia.
  - cbn. apply lookup_insert_eq.
  - reflexivity.
  - lia.
  - cbn [length] in Hmax. lia.
  - exact Hrest.
Qed.

(** X8. Counting from nothing: the first [Increment] of a key that is not in
    the map answers 1 and sets the expiry, and as long as the calls come
    before that expiry the [n]-th call answers [n]. *)
Theorem Increment_counts_the_calls
    (mc : MemoryCache.t) (rc : RedisCache.t) key t0 (ts : list Z) :
  MemoryCache.items mc !! key = None ->
  RedisCache.items rc !! key = None ->
  Forall (fun t => t <= t0 + MemoryCache.ttl mc) ts ->
  Forall (fun t => t <= t0 + RedisCache.ttl rc) ts ->
  Z.of_nat (length ts) < max_int ->
  MemoryCache_count mc key (t0 :: ts) = List.map Z.of_nat (seq 1 (S (length ts))) /\
  RedisCache_count rc key (t0 :: ts) = List.map Z.of_nat (seq 1 (S (length ts))).
Proof.
  intros Hm Hr Htm Htr Hlen. split.
  - cbn [MemoryCache_count seq List.map]. unfold MemoryCache.Increment. rewrite Hm.
    f_equal.
    erewrite MemoryCache_count_live with (n := 1).
    + rewrite <- (seq_shift (length ts) 1), List.map_map.
      apply List.map_ext. intros i. lia.
    + cbn. apply lookup_insert_eq.
    + reflexivity.
    + lia.
    + lia.
    + exact Htm.
  - cbn [RedisCache_count seq List.map]. unfold RedisCache.Increment. rewrite Hr.
    f_equal.
    erewrite RedisCache_count_live with (n := 1).
    + rewrite <- (seq_shift (length ts) 1), List.map_map.
      apply List.map_ext. intros i. lia.
    + cbn. apply lookup_insert_eq.
    + reflexivity.
    + lia.
    + lia.
    + exact Htr.
Qed.

Lemma Increment_counts_the_calls_witness :
  let mc := MemoryCache.NewMemoryCache 1000 (5 * Minute) in
  let rc := RedisCache.NewRedisCache (5 * Minute) in
  MemoryCache_count mc "hits" (0 :: [1; 2; 5 * Minute])
    = List.map Z.of_nat (seq 1 4) /\
  RedisCache_count rc "hits" (0 :: [1; 2; 5 * Minute])
    = List.map Z.of_nat (seq 1 4).
Proof.
  apply (Increment_counts_the_calls
           (MemoryCache.NewMemoryCache 1000 (5 * Minute))
           (RedisCache.NewRedisCache (5 * Minute)) "hits" 0 [1; 2; 5 * Minute]).
  - reflexivity.
  - reflexivity.
  - repeat constructor; vm_compute; discriminate.
  - repeat constructor; vm_compute; discriminate.
  - vm_compute. reflexivity.
Defined.


(** *** Keys *)

Definition hex_digits : list ascii := list_ascii_of_string "0123456789abcdef".

Lemma Sum_length data : length (MD5.Sum data) = 16%nat.
Proof.
  unfold MD5.Sum.
  destruct (MD5.blocks _ MD5.init _) as [[[a b] c] d].
  rewrite length_map, !length_app. reflexivity.
Qed.

Lemma hex_digit_in n : 0 <= n < 16 -> In (MD5.hex_digit n) hex_digits.
Proof.
  intros Hn. unfold MD5.hex_digit. apply nth_In.
  change (length hex_digits) with 16%nat. lia.
Qed.

Lemma hex_spec bs :
  String.length (MD5.hex bs) = (2 * length bs)%nat /\
  Forall (fun c => In c hex_digits) (list_ascii_of_string (MD5.hex bs)).
Proof.
  induction bs as [|b bs [IHl IHd]]; [split; [reflexivity | constructor]|].
  cbn [MD5.hex String.length list_ascii_of_string length]. split; [lia|].
  assert (Hb : 0 <= MD5.byte_val b < 256).
  { unfold MD5.byte_val. pose proof (Byte.to_N_bounded b). lia. }
  repeat (apply Forall_cons; split); [| |exact IHd]; apply hex_digit_in.
  - split; [apply Z.div_pos; lia | apply Z.div_lt_upper_bound; lia].
  - apply Z.mod_pos_bound. lia.
Qed.

(** X9. Every key that [GenerateCacheKey] builds, and every frame hash, is
    a string of 32 characters, all of them digits or letters from a to f,
    whatever the components are. *)
Theorem keys_are_32_hex_digits (components : list string) (imageData : list byte) :
  String.length (GenerateCacheKey components) = 32%nat /\
  Forall (fun c => In c hex_digits)
         (list_ascii_of_string (GenerateCacheKey components)) /\
  String.length (Processor.generateFrameHash imageData) = 32%nat /\
  Forall (fun c => In c hex_digits)
         (list_ascii_of_string (Processor.generateFrameHash imageData)).
Proof.
  unfold GenerateCacheKey, Processor.generateFrameHash.
  pose proof (hex_spec (MD5.Sum (List.concat (List.map list_byte_of_string components))))
    as [H1 H2].
  pose proof (hex_spec (MD5.Sum imageData)) as [H3 H4].
  rewrite Sum_length in H1, H3. repeat split; assumption.
Qed.

Lemma list_byte_of_string_app a b :
  list_byte_of_string (a ++ b)%string
  = list_byte_of_string a ++ list_byte_of_string b.
Proof.
  unfold list_byte_of_string.
  induction a as [|c a IH]; [reflexivity|].
  simpl. now rewrite IH.
Qed.

(** X10. The components of a key are written to the hash one after the
    other with nothing in between: a key depends on their concatenation
    only, so moving characters from the end of one component to the front
    of the next gives the same key. *)
Theorem key_components_run_together (a b : string) (rest : list string) :
  GenerateCacheKey (a :: b :: rest) = GenerateCacheKey ((a ++ b)%string :: rest) /\
  (forall c1 c2,
     String.concat "" c1 = String.concat "" c2 ->
     GenerateCacheKey c1 = GenerateCacheKey c2).
Proof.
  assert (Hcat : forall l,
    List.concat (List.map list_byte_of_string l)
    = list_byte_of_string (String.concat "" l)).
  { induction l as [|x [|y l] IH]; [reflexivity| |].
    - cbn. now rewrite app_nil_r.
    - change (String.concat "" (x :: y :: l))
        with (x ++ ("" ++ String.concat "" (y :: l)))%string.
      cbn [List.map List.concat] in *. rewrite list_byte_of_string_app.
      now rewrite IH. }
  assert (Hassoc : forall x y z : string, ((x ++ y) ++ z = x ++ (y ++ z))%string).
  { induction x as [|c x IH]; intros y z; [reflexivity|].
    change (String c ((x ++ y) ++ z) = String c (x ++ (y ++ z)))%string.
    f_equal. apply IH. }
  unfold GenerateCacheKey. split.
  - rewrite !Hcat. do 3 f_equal.
    destruct rest as [|r rest]; [reflexivity|].
    change (String.concat "" (a :: b :: r :: rest))
      with (a ++ (b ++ String.concat "" (r :: rest)))%string.
    change (String.concat "" ((a ++ b)%string :: r :: rest))
      with ((a ++ b) ++ String.concat "" (r :: rest))%string.
    now rewrite Hassoc.
  - intros c1 c2 Heq. now rewrite !Hcat, Heq.
Qed.


End CacheMore.

(** ** More on the rate limiter *)

Module RateLimitMore.
Import RateLimit RateLimitSpec RateLimitUse.

Lemma allowRequestWithConfig_other rl ip ip' now rps burst :
  ip' <> ip ->
  clients (snd (allowRequestWithConfig rl ip now rps burst)) !! ip' = clients rl !! ip'.
Proof.
  intros Hne. unfold allowRequestWithConfig.
  destruct (allowRequest _ now rps burst) as [ok b']. cbn.
  now apply lookup_insert_ne.
Qed.

Lemma allowRequestWithConfig_same rl rl' ip now rps burst :
  clients rl !! ip = clients rl' !! ip ->
  fst (allowRequestWithConfig rl ip now rps burst)
    = fst (allowRequestWithConfig rl' ip now rps burst) /\
  clients (snd (allowRequestWithConfig rl ip now rps burst)) !! ip
    = clients (snd (allowRequestWithConfig rl' ip now rps burst)) !! ip.
Proof.
  intros Heq. unfold allowRequestWithConfig. rewrite Heq.
  destruct (allowRequest _ now rps burst) as [ok b']. cbn.
  now rewrite !lookup_insert_eq.
Qed.

Lemma serve_all_client ip rps burst calls : forall rl rl',
  clients rl !! ip = clients rl' !! ip ->
  of_client ip (fst (serve_all rl rps burst calls))
  = List.map fst (fst (serve rl' ip rps burst (of_client ip calls))).
Proof.
  induction calls as [|[ip1 t] calls IH]; intros rl rl' Heq; [reflexivity|].
  cbn [serve_all].
  destruct (allowRequestWithConfig rl ip1 t rps burst) as [ok rl1] eqn:Hstep.
  specialize (IH rl1).
  destruct (serve_all rl1 rps burst calls) as [log rl2]. cbn [fst] in *.
  unfold of_client in *. cbn [List.filter fst].
  destruct (String.eqb ip1 ip) eqn:Hip.
  - apply String.eqb_eq in Hip. subst ip1. cbn [List.map snd serve].
    destruct (allowRequestWithConfig_same rl rl' ip t rps burst Heq) as [Hok Hnext].
    rewrite Hstep in Hok, Hnext. cbn [fst snd] in Hok, Hnext.
    destruct (allowRequestWithConfig rl' ip t rps burst) as [ok' rl1'].
    cbn [fst snd] in Hok, Hnext. subst ok'.
    specialize (IH rl1' Hnext).
    destruct (serve rl1' ip rps burst _) as [log' rl2'].
    cbn [fst List.map] in *. now rewrite IH.
  - apply String.eqb_neq in Hip. apply IH.
    pose proof (allowRequestWithConfig_other rl ip1 ip t rps burst) as Ho.
    rewrite Hstep in Ho. cbn [snd] in Ho. rewrite Ho by congruence. exact Heq.
Qed.

(** X11. Clients do not share anything: the answers that a client gets in
    a run where the calls of many clients are mixed are the answers it
    would get if it were alone, and a call of one client leaves the bucket
    of every other client as it was. *)
Theorem clients_are_served_independently rl ip rps burst calls :
  of_client ip (fst (serve_all rl rps burst calls))
    = List.map fst (fst (serve rl ip rps burst (of_client ip calls))) /\
  (forall ip' now, ip' <> ip ->
     clients (snd (allowRequestWithConfig rl ip now rps burst)) !! ip'
       = clients rl !! ip').
Proof.
  split.
  - now apply serve_all_client.
  - intros ip' now Hne. now apply allowRequestWithConfig_other.
Qed.



End RateLimitMore.

(** ** More on the work queue *)

Module QueueMore.
Import Models Queue QueueSpec QueueUse.

Lemma act_keeps_flags f q s a :
  let q' := fst (act f (q, s) a) in
  capacity q' = capacity q /\ isRunning q' = isRunning q /\
  shutdownClosed q' = shutdownClosed q /\ itemsClosed q' = itemsClosed q /\
  workers q' = workers q /\ (length (items q') <= length (items q))%nat.
Proof.
  destruct a as [w|w|w]; cbn [act].
  - destruct (pool q !! w) as [[| |]|]; try (cbn; repeat split; lia).
    destruct (items q) as [|x rest] eqn:Hi; cbn; rewrite ?Hi; cbn; repeat split; lia.
  - destruct (pool q !! w) as [[|it|]|]; try (cbn; repeat split; lia).
    destruct (1 <? _)%nat; cbn; repeat split; lia.
  - destruct (pool q !! w) as [[| |]|]; try (cbn; repeat split; lia).
    destruct (shutdownClosed q) eqn:Hs; cbn; repeat split; auto; lia.
Qed.

Lemma step_bounded f q s h o :
  Size q <= capacity q ->
  let '(q', _, _) := step f (q, s, h) o in
  Size q' <= capacity q' /\ capacity q' = capacity q.
Proof.
  intros Hb. destruct o as [item|a]; cbn [step].
  - unfold Enqueue. destruct (isRunning q); cbn [negb]; [|now split].
    destruct (Z.of_nat (length (items q)) <? capacity q) eqn:Hlt; [|now split].
    apply Z.ltb_lt in Hlt. unfold Size. cbn [with_items items capacity].
    rewrite length_app. cbn [length]. split; [lia | reflexivity].
  - pose proof (act_keeps_flags f q s a) as Hk.
    destruct (act f (q, s) a) as [q' s']. cbn [fst] in Hk.
    destruct Hk as (Hc & _ & _ & _ & _ & Hl). unfold Size in *. split; [lia | exact Hc].
Qed.

(** X13. The buffer never holds more than its capacity: whatever callers
    offer and whatever the workers do, [Size] stays at or below the
    capacity the queue was made with. *)
Theorem buffer_stays_within_capacity f q s h ops :
  Size q <= capacity q ->
  let '(q', _, _) := run f (q, s, h) ops in
  Size q' <= capacity q' /\ capacity q' = capacity q.
Proof.
  revert q s h. induction ops as [|o ops IH]; intros q s h Hb; [now split|].
  unfold run in *. cbn [fold_left].
  pose proof (step_bounded f q s h o Hb) as Hs.
  destruct (step f (q, s, h) o) as [[q1 s1] h1]. destruct Hs as [Hb1 Hc1].
  specialize (IH q1 s1 h1 Hb1).
  destruct (fold_left (step f) ops (q1, s1, h1)) as [[q2 s2] h2].
  destruct IH as [Hb2 Hc2]. split; [exact Hb2 | congruence].
Qed.

Lemma buffer_stays_within_capacity_witness :
  let '(q', _, _) :=
    run answer (NewProcessingQueue 1 1, ∅, mkHistory [] [])
        [Put itemA; Put itemB; Move (Take 0%nat); Put itemB; Put itemA] in
  Size q' <= capacity q' /\ capacity q' = capacity (NewProcessingQueue 1 1).
Proof.
  apply (buffer_stays_within_capacity answer (NewProcessingQueue 1 1) ∅
           (mkHistory [] [])
           [Put itemA; Put itemB; Move (Take 0%nat); Put itemB; Put itemA]).
  vm_compute. discriminate.
Defined.

Lemma step_fifo f q s h o base :
  base ++ accepted h = received h ++ items q ->
  let '(q', _, h') := step f (q, s, h) o in
  base ++ accepted h' = received h' ++ items q'.
Proof.
  intros Hinv. destruct o as [item|a]; cbn [step].
  - unfold Enqueue. destruct (isRunning q); cbn [negb].
    + destruct (Z.of_nat (length (items q)) <? capacity q);
        cbn [accepted received items with_items].
      * now rewrite !app_assoc, Hinv.
      * now rewrite app_nil_r.
    + cbn [accepted received]. now rewrite app_nil_r.
  - destruct a as [w|w|w]; cbn [act receives].
    + destruct (pool q !! w) as [[| |]|];
        try (cbn [accepted received]; now rewrite app_nil_r).
      destruct (items q) as [|x rest] eqn:Hi;
        cbn [accepted received items with_items with_pool].
      * now rewrite app_nil_r, Hi.
      * rewrite Hinv. now rewrite <- app_assoc.
    + destruct (pool q !! w) as [[|it|]|];
        try (cbn [accepted received]; now rewrite app_nil_r).
      destruct (1 <? _)%nat; cbn [accepted received items with_pool];
        now rewrite app_nil_r.
    + destruct (pool q !! w) as [[| |]|];
        try (cbn [accepted received]; now rewrite app_nil_r).
      destruct (shutdownClosed q); cbn [accepted received items with_pool];
        now rewrite app_nil_r.
Qed.

(** X14. Items are handed out in the order of arrival: the items that the
    workers have received so far, followed by the items still waiting, are
    the items that were waiting at the start followed by the items that
    [Enqueue] accepted, in that order.  The field [Priority] of an item
    plays no part. *)
Theorem items_are_served_in_arrival_order f q s ops :
  let '(q', _, h) := run f (q, s, mkHistory [] []) ops in
  items q ++ accepted h = received h ++ items q'.
Proof.
  assert (Hgen : forall ops q0 s0 h0 base,
            base ++ accepted h0 = received h0 ++ items q0 ->
            let '(q', _, h) := run f (q0, s0, h0) ops in
            base ++ accepted h = received h ++ items q').
  { clear. induction ops as [|o ops IH]; intros q0 s0 h0 base Hinv; [exact Hinv|].
    unfold run in *. cbn [fold_left].
    pose proof (step_fifo f q0 s0 h0 o base Hinv) as Hs.
    destruct (step f (q0, s0, h0) o) as [[q1 s1] h1].
    exact (IH q1 s1 h1 base Hs). }
  apply Hgen. cbn [accepted received]. now rewrite app_nil_r.
Qed.

Lemma moves_keep_flags f moves : forall q s,
  let q' := fst (fold_left (act f) moves (q, s)) in
  capacity q' = capacity q /\ isRunning q' = isRunning q /\
  shutdownClosed q' = shutdownClosed q /\ itemsClosed q' = itemsClosed q.
Proof.
  induction moves as [|a moves IH]; intros q s; [now cbn|].
  cbn [fold_left].
  pose proof (act_keeps_flags f q s a) as Hk.
  destruct (act f (q, s) a) as [q1 s1]. cbn [fst] in Hk.
  destruct Hk as (Hc & Hr & Hs & Hi & _).
  destruct (IH q1 s1) as (Hc' & Hr' & Hs' & Hi').
  cbn zeta. repeat split; congruence.
Qed.

Lemma Shutdown_not_running f q s moves :
  isRunning (snd (fst (Shutdown f q s moves))) = false.
Proof.
  unfold Shutdown. destruct (isRunning q) eqn:Hrun; cbn [negb]; [|exact Hrun].
  pose proof (moves_keep_flags f moves
    (mkQueue (items q) (capacity q) (itemsClosed q) (workers q) (pool q) true false)
    s) as Hk.
  destruct (fold_left (act f) moves _) as [q2 s2]. cbn [fst snd] in *.
  destruct Hk as (_ & Hr & _ & _). exact Hr.
Qed.

(** X15. [Shutdown] is final.  Once it has returned, with or without the
    timeout error, [Enqueue] refuses every item, a further [Shutdown]
    returns nil at once and changes nothing, and [DrainQueue] would not
    return: the channel [items] is closed, so its receive never takes the
    [default] branch. *)
Theorem Shutdown_is_final f q s moves :
  isRunning q = true ->
  let '(_, q1, s1) := Shutdown f q s moves in
  (forall item, Enqueue q1 item = (false, q1)) /\
  (forall moves', Shutdown f q1 s1 moves' = (None, q1, s1)) /\
  DrainQueue q1 s1 = None.
Proof.
  intros Hrun. unfold Shutdown at 1. rewrite Hrun. cbn [negb].
  pose proof (moves_keep_flags f moves
    (mkQueue (items q) (capacity q) (itemsClosed q) (workers q) (pool q) true false)
    s) as Hk.
  destruct (fold_left (act f) moves _) as [q2 s2]. cbn [fst] in Hk.
  destruct Hk as (_ & Hr & _ & _). cbn [isRunning] in Hr.
  split; [|split].
  - intros item. unfold Enqueue. cbn [isRunning]. now rewrite Hr.
  - intros moves'. unfold Shutdown. cbn [isRunning]. now rewrite Hr.
  - reflexivity.
Qed.

Lemma Shutdown_is_final_witness :
  let '(_, q1, s1) := Shutdown answer loaded ∅ [Finish 0%nat; Leave 0%nat] in
  (forall item, Enqueue q1 item = (false, q1)) /\
  (forall moves', Shutdown answer q1 s1 moves' = (None, q1, s1)) /\
  DrainQueue q1 s1 = None.
Proof.
  apply (Shutdown_is_final answer loaded ∅ [Finish 0%nat; Leave 0%nat]).
  reflexivity.
Defined.

(** X16. A panic of the handler does not take the worker down.  When the
    handler of worker [w] panics, the worker goes back to waiting for
    items and the buffer of the queue is as it was; the caller finds the
    "worker panic" error on the channel of the item if the handler had sent
    nothing before, and only what the handler had sent otherwise: the
    report does not fit in the buffer then and is dropped. *)
Theorem worker_survives_a_panic f q s w item r :
  pool q !! w = Some (Busy item) ->
  panic (f item) = Some r ->
  buffered s (ResultChan item) = [] ->
  (length (sent (f item)) <= 1)%nat ->
  let '(q', s') := act f (q, s) (Finish w) in
  pool q' !! w = Some Idle /\ items q' = items q /\
  (forall w', w' <> w -> pool q' !! w' = pool q !! w') /\
  buffered s' (ResultChan item) =
    match sent (f item) with
    | [] => [mkResult None (Some (ErrWorkerPanic r))]
    | rs => rs
    end.
Proof.
  intros Hw Hp Hb Hl. cbn [act]. rewrite Hw, Hp, Hb. cbn [app].
  replace (1 <? length (sent (f item)))%nat with false
    by (symmetry; apply Nat.ltb_ge; exact Hl).
  cbn [with_pool pool items]. split; [|split; [|split]].
  - apply list_lookup_insert_eq. eapply lookup_lt_Some; eassumption.
  - reflexivity.
  - intros w' Hne. apply list_lookup_insert_ne. congruence.
  - destruct (sent (f item)) as [|x rs] eqn:Hs.
    + cbn [deliver]. unfold try_send. rewrite Hb.
      unfold buffered, sinks in *. now rewrite lookup_insert_eq.
    + cbn [deliver]. rewrite Hb. cbn [app]. unfold try_send.
      assert (Hfull : buffered (<[ResultChan item := x :: rs]> s) (ResultChan item)
                      = x :: rs).
      { unfold buffered, sinks in *. now rewrite lookup_insert_eq. }
      rewrite Hfull. exact Hfull.
Qed.

Lemma worker_survives_a_panic_witness :
  let f := fun _ : QueueItem => mkHandled [] (Some "index out of range"%string) in
  let '(q', s') := act f (loaded, ∅) (Finish 0%nat) in
  pool q' !! 0%nat = Some Idle /\ items q' = items loaded /\
  (forall w', w' <> 0%nat -> pool q' !! w' = pool loaded !! w') /\
  buffered s' (ResultChan itemA) =
    match sent (f itemA) with
    | [] => [mkResult None (Some (ErrWorkerPanic "index out of range"))]
    | rs => rs
    end.
Proof.
  apply (worker_survives_a_panic
           (fun _ : QueueItem => mkHandled [] (Some "index out of range"%string))
           loaded ∅ 0%nat itemA "index out of range"%string).
  - reflexivity.
  - reflexivity.
  - reflexivity.
  - cbn. lia.
Defined.

Lemma drain_other (l : list QueueItem) : forall (s : sinks) ch,
  ch ∉ List.map ResultChan l ->
  buffered (fold_left (fun s' item => try_send s' (ResultChan item) cancellation) l s) ch
  = buffered s ch.
Proof.
  induction l as [|x l IH]; intros s ch Hnot; [reflexivity|].
  cbn [fold_left]. cbn [List.map] in Hnot.
  apply not_elem_of_cons in Hnot as [Hne Hnot].
  rewrite IH by exact Hnot. apply buffered_try_send_other. congruence.
Qed.

(** X17. [DrainQueue] on a queue whose channel is still open empties the
    buffer, returns the number of items that were waiting, and leaves the
    cancellation, and nothing else, on the channel of each of them; other
    channels are not written to. *)
Theorem DrainQueue_cancels_every_waiting_item q s :
  itemsClosed q = false ->
  NoDup (List.map ResultChan (items q)) ->
  (forall item, In item (items q) -> buffered s (ResultChan item) = []) ->
  exists q' s',
    DrainQueue q s = Some (Size q, q', s') /\ items q' = [] /\
    (forall item, In item (items q) ->
       buffered s' (ResultChan item) = [cancellation]) /\
    (forall ch, ch ∉ List.map ResultChan (items q) -> buffered s' ch = buffered s ch).
Proof.
  intros Hopen Hnd Hempty. unfold DrainQueue. rewrite Hopen.
  eexists _, _. split; [reflexivity|]. split; [reflexivity|]. split.
  - revert s Hnd Hempty. generalize (items q) as l.
    induction l as [|x l IH]; intros s Hnd Hempty item Hin; [destruct Hin|].
    cbn [fold_left]. cbn [List.map] in Hnd. apply NoDup_cons in Hnd as [Hx Hnd].
    destruct Hin as [<-|Hin].
    + rewrite drain_other by exact Hx. unfold try_send.
      rewrite (Hempty x) by now left.
      unfold buffered, sinks in *. now rewrite lookup_insert_eq.
    + apply IH; [exact Hnd| |exact Hin].
      intros y Hy. rewrite buffered_try_send_other.
      * apply Hempty. now right.
      * intros Heq. apply Hx. rewrite Heq.
        apply list_elem_of_In, in_map, Hy.
  - intros ch Hch. now apply drain_other.
Qed.

Lemma DrainQueue_cancels_every_waiting_item_witness :
  exists q' s',
    DrainQueue loaded ∅ = Some (Size loaded, q', s') /\ items q' = [] /\
    (forall item, In item (items loaded) ->
       buffered s' (ResultChan item) = [cancellation]) /\
    (forall ch, ch ∉ List.map ResultChan (items loaded) ->
       buffered s' ch = buffered (∅ : sinks) ch).
Proof.
  apply (DrainQueue_cancels_every_waiting_item loaded ∅).
  - reflexivity.
  - cbn. apply NoDup_singleton.
  - intros item _. reflexivity.
Defined.

(** X18. An item offered to a running queue with an empty buffer and an
    idle worker is accepted, and once that worker has taken it and its
    handler has sent a result and returned, the result is on the channel of
    the item, alone, and the queue is as it was before the call. *)
Theorem accepted_item_is_answered_once f q s w item r :
  isRunning q = true -> items q = [] -> 0 < capacity q ->
  pool q !! w = Some Idle ->
  buffered s (ResultChan item) = [] ->
  f item = mkHandled [r] None ->
  let '(ok, q1) := Enqueue q item in
  let '(q2, s2) := fold_left (act f) [Take w; Finish w] (q1, s) in
  ok = true /\ q2 = q /\ buffered s2 (ResultChan item) = [r] /\
  (forall ch, ch <> ResultChan item -> buffered s2 ch = buffered s ch).
Proof.
  intros Hrun Hi Hcap Hw Hb Hf. unfold Enqueue. rewrite Hrun, Hi. cbn [negb length].
  replace (Z.of_nat 0 <? capacity q) with true by (symmetry; apply Z.ltb_lt; lia).
  cbn [fold_left act with_items pool items app]. rewrite Hw.
  cbn [act with_pool with_items pool items].
  assert (Hlt : (w < length (pool q))%nat) by (eapply lookup_lt_Some; eassumption).
  rewrite list_lookup_insert_eq by exact Hlt.
  rewrite Hf. cbn [sent panic]. rewrite Hb. cbn [app length Nat.ltb Nat.leb].
  cbn [with_pool pool items capacity itemsClosed workers shutdownClosed isRunning deliver].
  rewrite Hb. cbn [app]. split; [reflexivity|]. split; [|split].
  - rewrite list_insert_insert_eq, (list_insert_id (pool q) w Idle Hw).
    destruct q; cbn in *. now subst.
  - unfold buffered, sinks in *. now rewrite lookup_insert_eq.
  - intros ch Hne. unfold buffered, sinks in *. now rewrite lookup_insert_ne.
Qed.

Lemma accepted_item_is_answered_once_witness :
  let '(ok, q1) := Enqueue (NewProcessingQueue 100 4) itemA in
  let '(q2, s2) := fold_left (act answer) [Take 2%nat; Finish 2%nat] (q1, ∅) in
  ok = true /\ q2 = NewProcessingQueue 100 4 /\
  buffered s2 (ResultChan itemA) = [mkResult (Some zero_AnalysisResult) None] /\
  (forall ch, ch <> ResultChan itemA -> buffered s2 ch = buffered (∅ : sinks) ch).
Proof.
  apply (accepted_item_is_answered_once answer (NewProcessingQueue 100 4) ∅ 2%nat
           itemA (mkResult (Some zero_AnalysisResult) None)).
  - reflexivity.
  - reflexivity.
  - reflexivity.
  - reflexivity.
  - reflexivity.
  - reflexivity.
Defined.

End QueueMore.

(** ** The priority queue *)

Module PriorityQueueMore.
Import Queue PriorityQueue.

(** Highest priority first. *)
Fixpoint ordered (l : list QueueItem) : Prop :=
  match l with
  | [] => True
  | x :: rest => Forall (fun y => Priority y <= Priority x) rest /\ ordered rest
  end.

Definition same_priority (p : Z) (x : QueueItem) : bool := Priority x =? p.

Lemma insertion_index_spec item : forall l i,
  match insertion_index l item i with
  | Some j =>
      exists k, j = (i + k)%nat /\ (k < length l)%nat /\
        Forall (fun x => Priority item <= Priority x) (take k l) /\
        (exists y, l !! k = Some y /\ Priority y < Priority item)
  | None => Forall (fun x => Priority item <= Priority x) l
  end.
Proof.
  induction l as [|x l IH]; intros i; cbn [insertion_index]; [constructor|].
  destruct (Priority x <? Priority item) eqn:Hlt.
  - apply Z.ltb_lt in Hlt. exists 0%nat. cbn.
    repeat split; [lia | lia | constructor | exists x; auto].
  - apply Z.ltb_ge in Hlt. specialize (IH (S i)).
    destruct (insertion_index l item (S i)) as [j|].
    + destruct IH as (k & -> & Hk & Hall & y & Hy & Hylt).
      exists (S k). cbn. repeat split; [lia | lia | now constructor | exists y; auto].
    + now constructor.
Qed.

Lemma Push_split pq item :
  exists l1 l2,
    pq = l1 ++ l2 /\ Push pq item = l1 ++ item :: l2 /\
    Forall (fun x => Priority item <= Priority x) l1 /\
    match l2 with
    | [] => True
    | y :: _ => Priority y < Priority item
    end.
Proof.
  unfold Push. pose proof (insertion_index_spec item pq 0) as Hs.
  destruct (insertion_index pq item 0) as [j|].
  - destruct Hs as (k & -> & Hk & Hall & y & Hy & Hylt). cbn [Nat.add].
    exists (take k pq), (drop k pq). rewrite take_drop.
    repeat split; [exact Hall|].
    rewrite (drop_S pq y k Hy). exact Hylt.
  - exists pq, []. rewrite app_nil_r. repeat split. exact Hs.
Qed.

Lemma ordered_app l1 l2 :
  ordered (l1 ++ l2) <->
  ordered l1 /\ ordered l2 /\
  Forall (fun x => Forall (fun y => Priority y <= Priority x) l2) l1.
Proof.
  induction l1 as [|x l1 IH]; cbn [app ordered].
  - split; [intros H; repeat split; [exact H | constructor] | now intros (_ & H & _)].
  - rewrite Forall_app, IH, Forall_cons. tauto.
Qed.

Lemma ordered_tail_below (l2 : list QueueItem) p :
  ordered l2 ->
  match l2 with [] => True | y :: _ => Priority y < p end ->
  Forall (fun x => Priority x < p) l2.
Proof.
  destruct l2 as [|y l2]; [constructor|]. cbn [ordered]. intros [Hall _] Hy.
  constructor; [exact Hy|].
  eapply Forall_impl; [exact Hall|]. cbn. intros x Hx. lia.
Qed.

(** X19. [Push] keeps the queue in order of priority, highest first, and
    puts the new item behind every item of the same or of a higher
    priority, before all the lower ones. *)
Theorem Push_keeps_priority_order pq item :
  ordered pq ->
  exists l1 l2,
    pq = l1 ++ l2 /\ Push pq item = l1 ++ item :: l2 /\
    Forall (fun x => Priority item <= Priority x) l1 /\
    Forall (fun x => Priority x < Priority item) l2 /\
    ordered (Push pq item).
Proof.
  intros Hord. destruct (Push_split pq item) as (l1 & l2 & Hpq & Hpush & H1 & H2).
  exists l1, l2. subst pq. apply ordered_app in Hord as (Ho1 & Ho2 & Hcross).
  pose proof (ordered_tail_below l2 (Priority item) Ho2 H2) as Hlow.
  repeat split; try assumption.
  rewrite Hpush. apply ordered_app. split; [exact Ho1|]. split.
  - cbn [ordered]. split; [|exact Ho2].
    eapply Forall_impl; [exact Hlow|]. cbn. intros x Hx. lia.
  - rewrite Forall_forall in Hcross, H1. apply Forall_forall. intros x Hx.
    constructor; [apply H1, Hx | apply Hcross, Hx].
Qed.

Lemma Push_keeps_priority_order_witness :
  let a := mkQueueItem (Models.mkFrameRequest [] 1 "a" []) 1 0 3 in
  let b := mkQueueItem (Models.mkFrameRequest [] 2 "b" []) 2 0 2 in
  let c := mkQueueItem (Models.mkFrameRequest [] 3 "c" []) 3 0 1 in
  let item := mkQueueItem (Models.mkFrameRequest [] 4 "d" []) 4 0 2 in
  exists l1 l2,
    [a; b; c] = l1 ++ l2 /\ Push [a; b; c] item = l1 ++ item :: l2 /\
    Forall (fun x => Priority item <= Priority x) l1 /\
    Forall (fun x => Priority x < Priority item) l2 /\
    ordered (Push [a; b; c] item).
Proof.
  apply (Push_keeps_priority_order
           [mkQueueItem (Models.mkFrameRequest [] 1 "a" []) 1 0 3;
            mkQueueItem (Models.mkFrameRequest [] 2 "b" []) 2 0 2;
            mkQueueItem (Models.mkFrameRequest [] 3 "c" []) 3 0 1]
           (mkQueueItem (Models.mkFrameRequest [] 4 "d" []) 4 0 2)).
  cbn. repeat constructor; cbn; lia.
Defined.

Lemma pushes_invariant xs :
  let pq := fold_left Push xs NewPriorityQueue in
  ordered pq /\ Permutation pq xs /\
  forall p, List.filter (same_priority p) pq = List.filter (same_priority p) xs.
Proof.
  induction xs as [|x xs IH] using rev_ind.
  - cbn. repeat split. constructor.
  - rewrite fold_left_app. cbn [fold_left]. cbn zeta in IH.
    destruct IH as (Hord & Hperm & Hties).
    set (pq := fold_left Push xs NewPriorityQueue) in *.
    destruct (Push_keeps_priority_order pq x Hord)
      as (l1 & l2 & Hpq & Hpush & H1 & H2 & Hord').
    split; [exact Hord'|]. split.
    + rewrite Hpush, <- Permutation_middle, <- Hpq, Hperm.
      apply Permutation_cons_append.
    + intros p. rewrite Hpush, !List.filter_app, <- Hties, Hpq.
      rewrite !List.filter_app. cbn [List.filter].
      rewrite <- app_assoc. f_equal.
      assert (Hnone : Priority x = p -> List.filter (same_priority p) l2 = []).
      { clear -H2. intros Hp. induction l2 as [|y l2 IH]; [reflexivity|].
        apply Forall_cons in H2 as [Hy H2]. cbn [List.filter].
        unfold same_priority at 1.
        replace (Priority y =? p) with false by (symmetry; apply Z.eqb_neq; lia).
        now apply IH. }
      fold (same_priority p).
      destruct (same_priority p x) eqn:Hp; [|now rewrite app_nil_r].
      apply Z.eqb_eq in Hp. now rewrite (Hnone Hp).
Qed.

(** X20. Whatever items are pushed on a new priority queue, in whatever
    order, the queue holds exactly these items, highest priority first and,
    among items of one priority, in the order in which they were pushed;
    [Pop] returns nil when nothing was pushed and otherwise removes an item
    whose priority no pushed item exceeds. *)
Theorem Pop_returns_the_highest_priority xs :
  let pq := fold_left Push xs NewPriorityQueue in
  Permutation pq xs /\ ordered pq /\
  (forall p, List.filter (same_priority p) pq = List.filter (same_priority p) xs) /\
  match Pop pq with
  | (None, rest) => xs = [] /\ rest = []
  | (Some item, rest) =>
      pq = item :: rest /\ In item xs /\ Len rest = Len pq - 1 /\
      forall x, In x xs -> Priority x <= Priority item
  end.
Proof.
  destruct (pushes_invariant xs) as (Hord & Hperm & Hties). cbn zeta in *.
  set (pq := fold_left Push xs NewPriorityQueue) in *.
  split; [exact Hperm|]. split; [exact Hord|]. split; [exact Hties|].
  destruct pq as [|item rest]; cbn [Pop].
  - split; [|reflexivity]. now apply Permutation_nil.
  - split; [reflexivity|]. split; [|split].
    + apply list_elem_of_In. rewrite <- Hperm. now left.
    + unfold Len. cbn [length]. lia.
    + intros x Hx. apply list_elem_of_In in Hx. rewrite <- Hperm in Hx.
      apply elem_of_cons in Hx as [->|Hx]; [lia|].
      cbn [ordered] in Hord. destruct Hord as [Hall _].
      rewrite Forall_forall in Hall. now apply Hall.
Qed.

End PriorityQueueMore.

(** ** More on the inference client *)

Module MLMore.
Import Models ML MLSpec.

Definition is_type (t : string) (an : Annotation) : bool := String.eqb (an_Type an) t.

Lemma float_gt_spec x y : float_gt x y = true <-> (y < x)%Q.
Proof.
  unfold float_gt. rewrite negb_true_iff. split.
  - intros Hle. apply Qnot_le_lt. intros Hxy.
    apply Qle_bool_iff in Hxy. congruence.
  - intros Hlt. destruct (Qle_bool x y) eqn:Hle; [|reflexivity].
    apply Qle_bool_iff in Hle. exfalso. eapply Qlt_not_le; eassumption.
Qed.

Lemma filter_boxes_of_boxes ds :
  List.filter (is_type "bounding_box") (List.map box_annotation ds)
  = List.map box_annotation ds.
Proof. induction ds as [|d ds IH]; [reflexivity|]. cbn. now rewrite IH. Qed.

Lemma filter_boxes_of_keypoints ks :
  List.filter (is_type "bounding_box") (List.map keypoint_annotation ks) = [].
Proof. induction ks as [|k ks IH]; [reflexivity|]. cbn. exact IH. Qed.

(** X21. What [convertMLResponse] shows of a reply.  Every detection
    becomes a bounding box, in the order of the reply and whatever its
    confidence.  A keypoint becomes an annotation, a square of side 5, only
    when it is visible and its confidence is above one half, and every such
    keypoint does.  The result carries no feedback. *)
Theorem convertMLResponse_annotations mlResp now :
  let a := Annotations (convertMLResponse mlResp now) in
  List.filter (is_type "bounding_box") a
    = List.map box_annotation (Detections mlResp) /\
  (forall an, In an a -> an_Type an = "keypoint"%string ->
     exists k, In k (PoseKeypoints mlResp) /\ an = keypoint_annotation k /\
               Visible k = true /\ (1 # 2 < an_Confidence an)%Q /\
               an_Width an = 5%Q /\ an_Height an = 5%Q) /\
  (forall k, In k (PoseKeypoints mlResp) ->
     Visible k = true -> (1 # 2 < kp_Confidence k)%Q ->
     In (keypoint_annotation k) a) /\
  (length a <= length (Detections mlResp) + length (PoseKeypoints mlResp))%nat /\
  ar_Feedback (convertMLResponse mlResp now) = [].
Proof.
  cbn [convertMLResponse Annotations ar_Feedback].
  split; [|split; [|split; [|split]]].
  - rewrite List.filter_app, filter_boxes_of_boxes, filter_boxes_of_keypoints.
    apply app_nil_r.
  - intros an Hin Hty. apply in_app_or in Hin as [Hin|Hin].
    + apply in_map_iff in Hin as (d & <- & _). discriminate.
    + apply in_map_iff in Hin as (k & <- & Hk).
      apply List.filter_In in Hk as [Hk Hok].
      apply andb_true_iff in Hok as [Hv Hc]. apply float_gt_spec in Hc.
      exists k. repeat split; assumption.
  - intros k Hk Hv Hc. apply in_or_app. right. apply in_map.
    apply List.filter_In. split; [exact Hk|].
    apply andb_true_iff. split; [exact Hv | now apply float_gt_spec].
  - rewrite length_app, !length_map.
    pose proof (List.filter_length_le
      (fun k => Visible k && float_gt (kp_Confidence k) (1 # 2))
      (PoseKeypoints mlResp)). lia.
  - reflexivity.
Qed.

(** The pauses of a trace, added up. *)
Definition total_sleep (trace : list event) : Z :=
  fold_right Z.add 0 (sleeps trace).

Lemma sleeps_app t1 t2 : sleeps (t1 ++ t2) = sleeps t1 ++ sleeps t2.
Proof. unfold sleeps. apply omap_app. Qed.

Lemma total_sleep_Sleep d t : total_sleep (Sleep d :: t) = d + total_sleep t.
Proof. reflexivity. Qed.

Lemma total_sleep_Post k t : total_sleep (Post k :: t) = total_sleep t.
Proof. reflexivity. Qed.

Lemma total_sleep_schedule cfg m : forall a,
  1 <= a -> 0 <= RetryDelay cfg ->
  RetryDelay cfg * (a + Z.of_nat m) <= max_int ->
  2 * total_sleep (schedule cfg m a)
  = RetryDelay cfg * Z.of_nat m * (2 * a + Z.of_nat m - 1).
Proof.
  induction m as [|m IH]; intros a Ha Hd Hmax.
  - cbn. lia.
  - cbn [schedule]. replace (0 <? a) with true by (symmetry; apply Z.ltb_lt; lia).
    cbn [app]. rewrite total_sleep_Sleep, total_sleep_Post.
    rewrite wrap_int_id by (unfold is_int, min_int, max_int in *; nia).
    rewrite Z.mul_add_distr_l, IH by (try lia; nia). nia.
Qed.

Lemma attempts_all_fail cfg service now : forall left a lastErr,
  (forall k, a <= k < a + Z.of_nat left -> failed service now k) ->
  exists last,
    attempts cfg service now left a lastErr
      = (inl (ErrAttempts (MaxRetries cfg) last), schedule cfg left a) /\
    match left with
    | O => last = lastErr
    | S _ =>
        exists e, last = Some e /\
          executeAnalysisRequest (service (a + Z.of_nat left - 1)) now = inl e
    end.
Proof.
  induction left as [|left IH]; intros a lastErr Hall.
  - exists lastErr. split; reflexivity.
  - cbn [attempts schedule].
    destruct (Hall a ltac:(lia)) as [e He]. rewrite He.
    destruct (IH (a + 1) (Some e)) as (last & Hrun & Hlast).
    { intros k Hk. apply Hall. lia. }
    rewrite Hrun. exists last. split; [reflexivity|].
    destruct left as [|left].
    + subst last. exists e. split; [reflexivity|].
      replace (a + Z.of_nat 1 - 1) with a by lia. exact He.
    + destruct Hlast as (e' & -> & He'). exists e'. split; [reflexivity|].
      replace (a + Z.of_nat (S (S left)) - 1)
        with (a + 1 + Z.of_nat (S left) - 1) by lia.
      exact He'.
Qed.

(** X22. When every attempt fails, [AnalyzeFrame] posts [MaxRetries + 1]
    times, sleeps [RetryDelay * MaxRetries * (MaxRetries + 1) / 2] in all
    (six seconds with the configuration of [NewClient]), and returns the
    error that wraps the error of the last attempt. *)
Theorem exhausted_retries cfg service now :
  0 <= MaxRetries cfg -> 0 <= RetryDelay cfg ->
  RetryDelay cfg * (MaxRetries cfg + 1) <= max_int ->
  (forall k, 0 <= k <= MaxRetries cfg -> failed service now k) ->
  let '(res, trace) := AnalyzeFrame cfg service now in
  (exists e,
     executeAnalysisRequest (service (MaxRetries cfg)) now = inl e /\
     res = inl (ErrAttempts (MaxRetries cfg) (Some e))) /\
  Z.of_nat (length (posts trace)) = MaxRetries cfg + 1 /\
  2 * total_sleep trace = RetryDelay cfg * MaxRetries cfg * (MaxRetries cfg + 1).
Proof.
  intros Hn Hd Hmax Hall. unfold AnalyzeFrame.
  destruct (attempts_all_fail cfg service now (Z.to_nat (MaxRetries cfg + 1)) 0 None)
    as (last & Hrun & Hlast).
  { intros k Hk. apply Hall. lia. }
  rewrite Hrun.
  destruct (Z.to_nat (MaxRetries cfg + 1)) as [|m] eqn:Hm; [lia|].
  destruct Hlast as (e & -> & He).
  replace (0 + Z.of_nat (S m) - 1) with (MaxRetries cfg) in He by lia.
  split; [exists e; split; [exact He | reflexivity]|]. split.
  - rewrite posts_schedule. lia.
  - cbn [schedule]. change (0 <? 0) with false. cbn [app].
    rewrite total_sleep_Post, total_sleep_schedule by lia.
    replace (Z.of_nat m) with (MaxRetries cfg) by lia. lia.
Qed.

Lemma exhausted_retries_witness :
  let service := fun _ : Z => NoResponse "connection refused" in
  let '(res, trace) := AnalyzeFrame default_config service 0 in
  (exists e,
     executeAnalysisRequest (service (MaxRetries default_config)) 0 = inl e /\
     res = inl (ErrAttempts (MaxRetries default_config) (Some e))) /\
  Z.of_nat (length (posts trace)) = MaxRetries default_config + 1 /\
  2 * total_sleep trace
    = RetryDelay default_config * MaxRetries default_config
      * (MaxRetries default_config + 1).
Proof.
  apply (exhausted_retries default_config
           (fun _ : Z => NoResponse "connection refused") 0).
  - vm_compute. discriminate.
  - vm_compute. discriminate.
  - vm_compute. discriminate.
  - intros k _. exists (ErrTransport "connection refused"). reflexivity.
Defined.

End MLMore.

(** ** More on the frame processor *)

Module ProcessorMore.
Import Models Cache Queue Processor CacheSpec ProcessorSpec.

(** The key under which [isSimilarFrame] marks a frame as seen. *)
Definition similarity_key (request : FrameRequest) : string :=
  GenerateCacheKey ["similarity"; generateFrameHash (ImageData request)]%string.




Section Generic.
Context {C : Type} `{CacheOps C}.


End Generic.



(** X24. A processor that was given a nil cache cannot process a frame
    while [SkipSimilarFrames] is set, as it is from [NewFrameProcessor] on:
    [ProcessFrame] guards the lookup of the result with [fp.cache != nil],
    [isSimilarFrame] does not, and the call panics before anything is put
    in the queue or asked of the inference service. *)
Theorem nil_cache_panics {C : Type} `{CacheOps C}
    (fp : FrameProcessor C) request now w :
  cache fp = None -> SkipSimilarFrames (config fp) = true ->
  let r := ProcessFrame fp request now w in
  answer r = Panics "invalid memory address or nil pointer dereference" /\
  asked r = [] /\ queue (after r) = queue fp.
Proof.
  intros Hc Hskip. unfold ProcessFrame. cbn [cache with_stats]. rewrite Hc.
  unfold dispatch, isSimilarFrame. cbn [config cache with_stats].
  rewrite Hskip. cbn [negb]. repeat split.
Qed.

Lemma nil_cache_panics_witness :
  let fp : FrameProcessor MemoryCache.t := NewFrameProcessor ML.default_config None 0 in
  let r := ProcessFrame fp rider_frame 0 (steady 0) in
  answer r = Panics "invalid memory address or nil pointer dereference" /\
  asked r = [] /\ queue (after r) = queue fp.
Proof.
  apply (nil_cache_panics
           (NewFrameProcessor ML.default_config None 0 : FrameProcessor MemoryCache.t)
           rider_frame 0 (steady 0)).
  - reflexivity.
  - reflexivity.
Defined.

(** *** A frame whose analysis failed *)

(** What the processor relies on in a cache, in terms of [Exists]: a key
    that is not there is a miss for [Get] and stays away as time goes on,
    and [SetWithTTL] makes its key exist for the time given and no other
    key appear. *)
Record keeps_time (C : Type) `{CacheOps C} : Prop := {
  expiry_law : forall (c : C) key now t,
    Exists c key now = (false, None) -> now <= t ->
    Exists c key t = (false, None);
  miss_law : forall (c : C) key d now,
    Exists c key now = (false, None) ->
    exists c', Get c key d now = Returns (Some ErrCacheMiss, d, c') /\
               forall k t, now <= t -> Exists c' k t = Exists c k t;
  mark_law : forall (c : C) key v ttl now,
    (forall t, t <= now + ttl ->
       Exists (snd (SetWithTTL c key v ttl now)) key t = (true, None)) /\
    (forall k t, k <> key -> Exists c k t = (false, None) ->
       Exists (snd (SetWithTTL c key v ttl now)) k t = (false, None))
}.

Lemma evictLRU_lookup (m : gmap string CacheItem) k :
  MemoryCache.evictLRU m !! k = None \/ MemoryCache.evictLRU m !! k = m !! k.
Proof.
  unfold MemoryCache.evictLRU.
  destruct (String.eqb (fst (fold_left _ (map_to_list m) (""%string, 0))) "");
    [now right|].
  match goal with |- context [delete ?k0 m] => destruct (decide (k0 = k)) as [->|Hne] end.
  - left. apply lookup_delete_eq.
  - right. now apply lookup_delete_ne.
Qed.

Lemma MemoryCache_keeps_time : keeps_time MemoryCache.t.
Proof.
  split.
  - intros c key now t. cbn [Exists MemoryCache_ops]. unfold MemoryCache.Exists.
    destruct (MemoryCache.items c !! key) as [item|]; [|reflexivity].
    destruct (ExpiresAt item <? now) eqn:He; [|discriminate].
    apply Z.ltb_lt in He. intros _ Ht.
    replace (ExpiresAt item <? t) with true by (symmetry; apply Z.ltb_lt; lia).
    reflexivity.
  - intros c key d now. cbn [Exists Get MemoryCache_ops].
    unfold MemoryCache.Exists, MemoryCache.Get.
    destruct (MemoryCache.items c !! key) as [item|] eqn:Hk.
    + destruct (ExpiresAt item <? now) eqn:He; [|discriminate]. intros _.
      eexists. split; [reflexivity|]. intros k t Ht.
      cbn [MemoryCache.items MemoryCache.with_items].
      destruct (decide (k = key)) as [->|Hne].
      * rewrite lookup_delete_eq, Hk. apply Z.ltb_lt in He.
        replace (ExpiresAt item <? t) with true by (symmetry; apply Z.ltb_lt; lia).
        reflexivity.
      * now rewrite lookup_delete_ne by congruence.
    + intros _. eexists. split; [reflexivity|]. reflexivity.
  - intros c key v ttl now. cbn [Exists SetWithTTL MemoryCache_ops].
    unfold MemoryCache.Exists, MemoryCache.SetWithTTL.
    cbn [snd MemoryCache.items MemoryCache.with_items]. split.
    + intros t Ht. rewrite lookup_insert_eq. cbn [ExpiresAt].
      replace (now + ttl <? t) with false by (symmetry; apply Z.ltb_ge; lia).
      reflexivity.
    + intros k t Hne. rewrite lookup_insert_ne by congruence.
      unfold MemoryCache.make_room.
      destruct (MemoryCache.maxSize c <=? _); [|auto].
      destruct (evictLRU_lookup (MemoryCache.items c) k) as [-> | ->]; auto.
Qed.

Lemma RedisCache_keeps_time : keeps_time RedisCache.t.
Proof.
  split.
  - intros c key now t. cbn [Exists RedisCache_ops]. unfold RedisCache.Exists.
    destruct (RedisCache.items c !! key) as [item|]; [|reflexivity].
    destruct (ExpiresAt item <? now) eqn:He; [|discriminate].
    apply Z.ltb_lt in He. intros _ Ht.
    replace (ExpiresAt item <? t) with true by (symmetry; apply Z.ltb_lt; lia).
    reflexivity.
  - intros c key d now. cbn [Exists Get RedisCache_ops].
    unfold RedisCache.Exists, RedisCache.Get.
    destruct (RedisCache.items c !! key) as [item|] eqn:Hk.
    + destruct (ExpiresAt item <? now) eqn:He; [|discriminate]. intros _.
      eexists. split; [reflexivity|]. intros k t Ht.
      cbn [RedisCache.items RedisCache.with_items].
      destruct (decide (k = key)) as [->|Hne].
      * rewrite lookup_delete_eq, Hk. apply Z.ltb_lt in He.
        replace (ExpiresAt item <? t) with true by (symmetry; apply Z.ltb_lt; lia).
        reflexivity.
      * now rewrite lookup_delete_ne by congruence.
    + intros _. eexists. split; [reflexivity|]. reflexivity.
  - intros c key v ttl now. cbn [Exists SetWithTTL RedisCache_ops].
    unfold RedisCache.Exists, RedisCache.SetWithTTL.
    cbn [snd RedisCache.items RedisCache.with_items]. split.
    + intros t Ht. rewrite lookup_insert_eq. cbn [ExpiresAt].
      replace (now + ttl <? t) with false by (symmetry; apply Z.ltb_ge; lia).
      reflexivity.
    + intros k t Hne. now rewrite lookup_insert_ne by congruence.
Qed.

Section Retry.
Context {C : Type} `{CacheOps C}.
Hypothesis laws : keeps_time C.

(** The cache after a call that missed both keys and did not succeed: the
    similarity mark, set at the start of the call, is all that it added. *)
Lemma failed_call_leaves_the_mark (fp : FrameProcessor C) c request now w e :
  cache fp = Some c -> SkipSimilarFrames (config fp) = true ->
  Exists c (frame_key request) now = (false, None) ->
  Exists c (similarity_key request) now = (false, None) ->
  answer (ProcessFrame fp request now w) = Returns (inl e) ->
  exists c0,
    (forall k t, now <= t -> Exists c0 k t = Exists c k t) /\
    cache (after (ProcessFrame fp request now w))
      = Some (snd (SetWithTTL c0 (similarity_key request) (ABool true)
                              (5 * Minute) now)) /\
    config (after (ProcessFrame fp request now w)) = config fp.
Proof.
  intros Hc Hskip Hfk Hsk. unfold ProcessFrame. cbn [cache with_stats]. rewrite Hc.
  fold (frame_key request).
  destruct (miss_law C laws c (frame_key request) (DestResult zero_AnalysisResult)
              now Hfk) as (c0 & -> & Hsame).
  unfold dispatch, isSimilarFrame. cbn [config cache with_stats]. rewrite Hskip.
  cbn [negb]. fold (similarity_key request).
  rewrite (Hsame (similarity_key request) now ltac:(lia)), Hsk.
  destruct (Enqueue _ _) as [accepted q1].
  destruct accepted; cbn [negb].
  - destruct (served w); cbn [negb].
    + destruct (processFrame _ _ _ _) as [result trace].
      destruct (Error result) as [err|]; cbn [answer after cache config].
      * intros _. exists c0. repeat split. exact Hsame.
      * discriminate.
    + cbn [answer after cache config]. intros _. exists c0. repeat split. exact Hsame.
  - cbn [answer after cache config]. intros _. exists c0. repeat split. exact Hsame.
Qed.

Lemma seen_frame_is_not_analysed (fp : FrameProcessor C) c request now w :
  cache fp = Some c -> SkipSimilarFrames (config fp) = true ->
  Exists c (frame_key request) now = (false, None) ->
  Exists c (similarity_key request) now = (true, None) ->
  answer (ProcessFrame fp request now w) = Returns (inr (getCachedResult now)) /\
  asked (ProcessFrame fp request now w) = [].
Proof.
  intros Hc Hskip Hfk Hsk. unfold ProcessFrame. cbn [cache with_stats]. rewrite Hc.
  fold (frame_key request).
  destruct (miss_law C laws c (frame_key request) (DestResult zero_AnalysisResult)
              now Hfk) as (c0 & -> & Hsame).
  unfold dispatch, isSimilarFrame. cbn [config cache with_stats]. rewrite Hskip.
  cbn [negb]. fold (similarity_key request).
  rewrite (Hsame (similarity_key request) now ltac:(lia)), Hsk.
  split; reflexivity.
Qed.

End Retry.

(** X25. A frame whose analysis failed is reported as analysed when it is
    sent again.  When [ProcessFrame] misses the cache and then returns an
    error (the queue was full, the wait timed out, or the inference failed),
    the frame has been marked as seen all the same; the same request within
    the next five minutes is answered with the stock result 75/80/70/75
    ("Using cached result for similar frame") and nothing is asked of the
    inference service. *)
Theorem failed_frame_is_answered_with_the_stock_result
    {C : Type} `{CacheOps C} (laws : keeps_time C)
    (fp : FrameProcessor C) c request now w e later w' :
  cache fp = Some c -> SkipSimilarFrames (config fp) = true ->
  frame_key request <> similarity_key request ->
  Exists c (frame_key request) now = (false, None) ->
  Exists c (similarity_key request) now = (false, None) ->
  answer (ProcessFrame fp request now w) = Returns (inl e) ->
  now <= later <= now + 5 * Minute ->
  let second := ProcessFrame (after (ProcessFrame fp request now w)) request later w' in
  answer second = Returns (inr (getCachedResult later)) /\ asked second = [].
Proof.
  intros Hc Hskip Hkeys Hfk Hsk Hfail Hlater.
  destruct (failed_call_leaves_the_mark laws fp c request now w e Hc Hskip Hfk Hsk Hfail)
    as (c0 & Hsame & Hcache & Hconfig).
  destruct (mark_law C laws c0 (similarity_key request) (ABool true) (5 * Minute) now)
    as [Hmark Hrest].
  cbn zeta. eapply (seen_frame_is_not_analysed laws).
  - exact Hcache.
  - now rewrite Hconfig.
  - apply Hrest; [exact Hkeys|]. rewrite Hsame by lia.
    eapply (expiry_law C laws); [exact Hfk | lia].
  - apply Hmark. lia.
Qed.

(** The inference service is down. *)
Definition down (now : Z) : world :=
  mkWorld (fun _ => ML.NoResponse "connection refused") true (now + 40000000).

Lemma failed_frame_is_answered_with_the_stock_result_witness :
  let first := ProcessFrame fresh_on_memory rider_frame 0 (down 0) in
  let second := ProcessFrame (after first) rider_frame Second (steady Second) in
  answer second = Returns (inr (getCachedResult Second)) /\ asked second = [].
Proof.
  apply (failed_frame_is_answered_with_the_stock_result MemoryCache_keeps_time
           fresh_on_memory (MemoryCache.NewMemoryCache 1000 (5 * Minute))
           rider_frame 0 (down 0)
           (ErrML (ML.ErrAttempts 3 (Some (ML.ErrTransport "connection refused"))))
           Second (steady Second)).
  - reflexivity.
  - reflexivity.
  - vm_compute. discriminate.
  - reflexivity.
  - reflexivity.
  - vm_compute. reflexivity.
  - vm_compute. split; discriminate.
Defined.

End ProcessorMore.

(** ** Shutting down *)

Module LifecycleMore.
Import Models Cache Queue Processor Lifecycle CacheSpec ProcessorSpec.

(** X26. The orderly shutdown closes the cache twice.  When the workers
    stop in time, [FrameProcessor.Shutdown] closes the cache and [main]
    closes it again, which panics on the closed channel; so does a second
    call of [FrameProcessor.Shutdown].  Only when the queue reports its
    timeout is the cache closed once, by [main]. *)
Theorem orderly_shutdown_closes_the_cache_twice {C : Type} `{CacheOps C}
    (fp : FrameProcessor C) workerFunc s moves c c' r :
  cache fp = Some c ->
  Close c = Returns (None, c') ->
  Close c' = Panics r ->
  match fst (fst (Queue.Shutdown workerFunc (queue fp) s moves)) with
  | None =>
      main_shutdown workerFunc fp s moves = Panics r /\
      exists fp1 s1,
        Shutdown workerFunc fp s moves = Returns (None, fp1, s1) /\
        forall moves', Shutdown workerFunc fp1 s1 moves' = Panics r
  | Some e =>
      exists fp1 s1,
        Shutdown workerFunc fp s moves = Returns (Some (QueueError e), fp1, s1) /\
        main_shutdown workerFunc fp s moves
          = Returns (with_queue fp1 (queue fp1) (Some c'), s1)
  end.
Proof.
  intros Hc Hclose Hagain. unfold main_shutdown, Shutdown.
  pose proof (QueueMore.Shutdown_not_running workerFunc (queue fp) s moves) as Hstop.
  destruct (Queue.Shutdown workerFunc (queue fp) s moves) as [[err q1] s1].
  cbn [fst snd] in *. destruct err as [e|].
  - eexists _, _. split; [reflexivity|]. cbn [cache with_queue].
    rewrite Hc, Hclose. reflexivity.
  - rewrite Hc, Hclose. cbn [cache with_queue]. rewrite Hagain.
    split; [reflexivity|]. eexists _, _. split; [reflexivity|].
    intros moves'. cbn [queue with_queue cache].
    unfold Queue.Shutdown. rewrite Hstop. cbn [negb]. now rewrite Hagain.
Qed.

Lemma orderly_shutdown_closes_the_cache_twice_witness :
  let moves := [Leave 0%nat; Leave 1%nat; Leave 2%nat; Leave 3%nat] in
  match fst (fst (Queue.Shutdown QueueSpec.answer (queue fresh_on_memory) ∅ moves)) with
  | None =>
      main_shutdown QueueSpec.answer fresh_on_memory ∅ moves
        = Panics "close of closed channel" /\
      exists fp1 s1,
        Shutdown QueueSpec.answer fresh_on_memory ∅ moves = Returns (None, fp1, s1) /\
        forall moves', Shutdown QueueSpec.answer fp1 s1 moves'
                       = Panics "close of closed channel"
  | Some e =>
      exists fp1 s1,
        Shutdown QueueSpec.answer fresh_on_memory ∅ moves
          = Returns (Some (QueueError e), fp1, s1) /\
        main_shutdown QueueSpec.answer fresh_on_memory ∅ moves
          = Returns (with_queue fp1 (queue fp1)
                       (Some (MemoryCache_closed
                                (MemoryCache.NewMemoryCache 1000 (5 * Minute)))), s1)
  end.
Proof.
  apply (orderly_shutdown_closes_the_cache_twice fresh_on_memory QueueSpec.answer ∅
           [Leave 0%nat; Leave 1%nat; Leave 2%nat; Leave 3%nat]
           (MemoryCache.NewMemoryCache 1000 (5 * Minute))
           (MemoryCache_closed (MemoryCache.NewMemoryCache 1000 (5 * Minute)))
           "close of closed channel").
  - reflexivity.
  - reflexivity.
  - reflexivity.
Defined.

End LifecycleMore.

(** ** The bearer token and the sanitising of queries *)

Module MiddlewareMore.
Import Middleware.

Fixpoint occurs (sep : ascii) (s : string) : bool :=
  match s with
  | EmptyString => false
  | String c rest => Ascii.eqb c sep || occurs sep rest
  end.

Lemma Split_not_nil s sep : Split s sep <> [].
Proof.
  destruct s as [|c rest]; cbn [Split]; [discriminate|].
  destruct (Ascii.eqb c sep); [discriminate|].
  destruct (Split rest sep); discriminate.
Qed.

Lemma Split_whole s sep : occurs sep s = false -> Split s sep = [s].
Proof.
  induction s as [|c s IH]; [reflexivity|]. cbn [occurs Split].
  destruct (Ascii.eqb c sep); [discriminate|]. cbn [orb].
  intros Hs. now rewrite (IH Hs).
Qed.

Lemma Split_one s sep : forall p, Split s sep = [p] -> s = p /\ occurs sep s = false.
Proof.
  induction s as [|c s IH]; intros p; cbn [Split occurs].
  - intros [= <-]. now split.
  - destruct (Ascii.eqb c sep); cbn [orb].
    + intros [= _ Hnil]. now apply Split_not_nil in Hnil.
    + destruct (Split s sep) as [|piece pieces] eqn:Hs;
        [now apply Split_not_nil in Hs|].
      intros [= <- ->]. destruct (IH piece eq_refl) as [-> Hno]. now split.
Qed.

Lemma Split_two s sep : forall p0 p1,
  Split s sep = [p0; p1] ->
  s = (p0 ++ String sep p1)%string /\ occurs sep p0 = false /\ occurs sep p1 = false.
Proof.
  induction s as [|c s IH]; intros p0 p1; cbn [Split]; [discriminate|].
  destruct (Ascii.eqb c sep) eqn:Hc.
  - intros [= <- Hrest]. apply Ascii.eqb_eq in Hc. subst c.
    destruct (Split_one s sep p1 Hrest) as [-> Hno]. now repeat split.
  - destruct (Split s sep) as [|piece pieces] eqn:Hs; [discriminate|].
    intros [= <- ->]. destruct (IH piece p1 eq_refl) as (-> & H0 & H1).
    repeat split; [|exact H1]. cbn [occurs]. now rewrite Hc.
Qed.

Lemma Split_at_sep m p sep :
  occurs sep m = false ->
  Split (m ++ String sep p)%string sep = m :: Split p sep.
Proof.
  induction m as [|c m IH].
  - intros _. change (Split (String sep p) sep = "" :: Split p sep)%string.
    cbn [Split]. now rewrite Ascii.eqb_refl.
  - cbn [occurs]. destruct (Ascii.eqb c sep) eqn:Hc; [discriminate|]. cbn [orb].
    intros Hm. change (Split (String c (m ++ String sep p)) sep = String c m :: Split p sep)%string.
    cbn [Split]. now rewrite Hc, (IH Hm).
Qed.

(** X27. [extractToken] accepts the header [Bearer <token>] and nothing
    else: it returns the token when the header is the word "Bearer", one
    space and a token without spaces, and the empty string, which
    [RequireAuth] answers with 401, for every other header; another
    spelling of the scheme, a second space or a missing header included. *)
Theorem extractToken_accepts_exactly_Bearer :
  (forall token, occurs space token = false ->
     extractToken ("Bearer " ++ token) = token) /\
  (forall authHeader, extractToken authHeader <> ""%string ->
     authHeader = ("Bearer " ++ extractToken authHeader)%string /\
     occurs space (extractToken authHeader) = false).
Proof.
  split.
  - intros token Hno. unfold extractToken.
    change ("Bearer " ++ token)%string with ("Bearer" ++ String space token)%string.
    rewrite Split_at_sep by reflexivity. rewrite (Split_whole token space Hno).
    reflexivity.
  - intros h. unfold extractToken. destruct (String.eqb h ""); [congruence|].
    destruct (Split h space) as [|p0 [|p1 [|p2 rest]]] eqn:Hs; try congruence.
    destruct (String.eqb p0 "Bearer") eqn:Hb; cbn [negb]; [|congruence].
    apply String.eqb_eq in Hb. subst p0. intros _.
    destruct (Split_two h space _ _ Hs) as (-> & _ & Hno). now split.
Qed.

(** What one character of a query value comes out as. *)
Definition escape (c : ascii) : string :=
  if Ascii.eqb c "<" then "&amp;lt;"
  else if Ascii.eqb c ">" then "&amp;gt;"
  else if Ascii.eqb c dquote then "&amp;quot;"
  else if Ascii.eqb c "'" then "&amp;#x27;"
  else if Ascii.eqb c "&" then "&amp;"
  else String c "".

Fixpoint escape_all (s : string) : string :=
  match s with
  | EmptyString => EmptyString
  | String c rest => (escape c ++ escape_all rest)%string
  end.

Definition special (c : ascii) : bool :=
  Ascii.eqb c "<" || Ascii.eqb c ">" || Ascii.eqb c dquote || Ascii.eqb c "'".

Lemma append_assoc (x y z : string) : ((x ++ y) ++ z = x ++ (y ++ z))%string.
Proof.
  induction x as [|c x IH]; [reflexivity|].
  change (String c ((x ++ y) ++ z) = String c (x ++ (y ++ z)))%string.
  now rewrite IH.
Qed.

Lemma ReplaceAll_app a b old new :
  ReplaceAll (a ++ b) old new = (ReplaceAll a old new ++ ReplaceAll b old new)%string.
Proof.
  induction a as [|c a IH]; [reflexivity|].
  change (ReplaceAll (String c (a ++ b)) old new
          = (ReplaceAll (String c a) old new ++ ReplaceAll b old new)%string).
  cbn [ReplaceAll]. rewrite IH. destruct (Ascii.eqb c old).
  - now rewrite append_assoc.
  - reflexivity.
Qed.

Lemma sanitize_app a b : sanitize (a ++ b) = (sanitize a ++ sanitize b)%string.
Proof. unfold sanitize. now rewrite !ReplaceAll_app. Qed.

Lemma sanitize_one c : sanitize (String c "") = escape c.
Proof. destruct c as [[] [] [] [] [] [] [] []]; reflexivity. Qed.

Lemma escape_plain c : forallb (fun x => negb (special x)) (list_ascii_of_string (escape c)) = true.
Proof. destruct c as [[] [] [] [] [] [] [] []]; reflexivity. Qed.

Lemma list_ascii_of_string_app a b :
  list_ascii_of_string (a ++ b) = list_ascii_of_string a ++ list_ascii_of_string b.
Proof.
  induction a as [|c a IH]; [reflexivity|].
  change (list_ascii_of_string (String c (a ++ b))
          = c :: list_ascii_of_string a ++ list_ascii_of_string b).
  cbn [list_ascii_of_string]. now rewrite IH.
Qed.

(** X28. The five replacements of [InputValidation] amount to one
    substitution per character, and the ampersand, which is replaced last,
    escapes the escapes: [<] comes out as [&amp;lt;], [>] as [&amp;gt;], the
    double quote as [&amp;quot;], the apostrophe as [&amp;#x27;] and [&] as
    [&amp;]; every other character is kept.  None of the four characters
    that were to be removed is left in the value. *)
Theorem sanitize_escapes_twice value :
  sanitize value = escape_all value /\
  forallb (fun x => negb (special x)) (list_ascii_of_string (sanitize value)) = true.
Proof.
  assert (Hspec : sanitize value = escape_all value).
  { induction value as [|c value IH]; [reflexivity|].
    change (String c value) with (String c "" ++ value)%string.
    rewrite sanitize_app, sanitize_one, IH. reflexivity. }
  split; [exact Hspec|]. rewrite Hspec. clear Hspec.
  induction value as [|c value IH]; [reflexivity|].
  cbn [escape_all]. rewrite list_ascii_of_string_app, forallb_app, IH.
  now rewrite escape_plain.
Qed.

End MiddlewareMore.

(** ** The upload of one frame over HTTP *)

Module StreamHandlerMore.
Import Models Cache Queue Handlers Base64 HandlersSpec StreamHandler.



(** X30. An upload reaches the processor as it was sent.  For a body whose
    [image_data] is a data URL with the standard base64 of the bytes [B]
    after its comma, the handler calls the processor with exactly [B], the
    timestamp of the body and the address of the client as [ClientID], and
    answers 200 with the result of the processor, 500 when the processor
    returns an error. *)
Theorem upload_reaches_the_processor {C : Type} `{CacheOps C}
    (stats : SystemStats) (fp : Processor.FrameProcessor C)
    (M : string) (B : list byte) timestamp clientIP now w done :
  has_comma M = false ->
  let bound := Some (mkUpload (M ++ String comma (EncodeToString B)) timestamp) in
  let r := ProcessFrame stats fp bound clientIP now w done in
  let p := Processor.ProcessFrame fp (mkFrameRequest B timestamp clientIP []) now w in
  processor_after r = Processor.after p /\
  reply r =
    match Processor.answer p with
    | Returns (inr result) =>
        Returns (OK result (Z.quot (done - now) 1000000) (done / Second))
    | Returns (inl _) => Returns (InternalServerError "Processing failed")
    | Panics reason => Panics reason
    end.
Proof.
  intros HM. cbn zeta. unfold ProcessFrame. cbn [up_ImageData up_Timestamp].
  unfold StreamHandler_extractImageData.
  rewrite (extract_at_comma ErrInvalidDataURL M (EncodeToString B) HM
             (proj2 (encode_plain B))).
  rewrite DecodeString_EncodeToString.
  destruct (Processor.answer _) as [[e|result]|reason]; split; reflexivity.
Qed.

Lemma upload_reaches_the_processor_witness :
  let B := list_byte_of_string "JPEG" in
  let bound := Some (mkUpload ("data:image/jpeg;base64" ++ String comma (EncodeToString B)) 7) in
  let r := ProcessFrame (mkSystemStats 0 0 0 0%Q 0 0) ProcessorSpec.fresh_on_memory
             bound "10.0.0.1" 0 (ProcessorSpec.steady 0) 50000000 in
  let p := Processor.ProcessFrame ProcessorSpec.fresh_on_memory
             (mkFrameRequest B 7 "10.0.0.1" []) 0 (ProcessorSpec.steady 0) in
  processor_after r = Processor.after p /\
  reply r =
    match Processor.answer p with
    | Returns (inr result) =>
        Returns (OK result (Z.quot (50000000 - 0) 1000000) (50000000 / Second))
    | Returns (inl _) => Returns (InternalServerError "Processing failed")
    | Panics reason => Panics reason
    end.
Proof.
  apply (upload_reaches_the_processor (mkSystemStats 0 0 0 0%Q 0 0)
           ProcessorSpec.fresh_on_memory "data:image/jpeg;base64"
           (list_byte_of_string "JPEG") 7 "10.0.0.1" 0 (ProcessorSpec.steady 0)
           50000000).
  reflexivity.
Defined.

End StreamHandlerMore.
